(** * sub: a subcommand dispatcher for Go's flag package

    A shallow embedding of [sub.go] (the [Commander], its registry, the
    two-phase flag parsing of [Commander.Run] and the built-in [helpCmd]),
    together with the part of Go's standard [flag] and [sort] packages that
    the code calls, and the properties of the specification proved or
    refuted on it.

    Conventions.
    - A Go [string] is a sequence of bytes: Rocq's [string], compared with
      [String.ltb] and [String.eqb] (byte-wise lexicographic order, as Go's
      [<] and [==] on strings).
    - A Go [error] is an [option error]; [None] is [nil].
    - A map ([FlagSet.formal]) is a [gmap]; a slice is a [list].
    - Output is a log of writes, each to a named [Writer]; client code
      (declarators that define flags, flag values that are set, commands
      that run) acts on a client state of an arbitrary type [St]. *)

From Stdlib Require Import String Ascii List Arith Lia Bool.
From stdpp Require Import base list strings gmap sorting.
From Equations Require Import Equations.
From Equations.Prop Require Import Logic.

Set Default Proof Using "Type".

(** ** What the Go runtime and library provide

    [strings.TrimSpace], the [%q] verb of [fmt] (that is [strconv.Quote])
    and [filepath.Base(os.Args[0])] are taken as they are: nothing below
    depends on what they compute. *)
Class Platform := {
  TrimSpace : string -> string;
  Quote : string -> string;
  exeName : string
}.

(** The bytes ['\n'] and ['\t']. *)
Definition nl : string := String (ascii_of_nat 10) EmptyString.
Definition tab : string := String (ascii_of_nat 9) EmptyString.

(** ** Package sort *)
Module sort.

(** [h := int(uint(i+j) >> 1)] *)
Definition mid (i j : nat) : nat := (i + j) / 2.

Lemma mid_bounds (i j : nat) : i < j -> i <= mid i j < j.
Proof.
  unfold mid; intros Hlt.
  pose proof (Nat.div_mod_eq (i + j) 2).
  pose proof (Nat.mod_upper_bound (i + j) 2).
  lia.
Qed.

(** The loop of [sort.Search]:
    [for i < j { h := mid; if !f(h) { i = h + 1 } else { j = h } }; return i]. *)
Equations? searchLoop (f : nat -> bool) (i j : nat) : nat by wf (j - i) lt :=
searchLoop f i j with decide (i < j) := {
  | left Hlt with f (mid i j) := {
      | false => searchLoop f (mid i j + 1) j
      | true => searchLoop f i (mid i j) }
  | right _ => i }.
Proof.
  all: pose proof (mid_bounds i j Hlt); lia.
Qed.

(** [sort.Search(n, f)]: [i, j := 0, n] and the loop. *)
Definition Search (n : nat) (f : nat -> bool) : nat := searchLoop f 0 n.

End sort.

(** ** Errors, writers and the world *)

(** The error values the code can see: the sentinel [flag.ErrHelp], an
    error made by the flag package ([FlagSet.failf], or the [errParse] of
    its value types), and any error value made by client code. Go
    compares errors by identity; an error made by [failf] is never the
    sentinel. *)
Inductive error : Type :=
  | ErrHelp
  | parseError (msg : string)
  | clientError (msg : string).

(** [err.Error()] *)
Definition Error (e : error) : string :=
  match e with
  | ErrHelp => "flag: help requested"
  | parseError msg => msg
  | clientError msg => msg
  end.

(** An [io.Writer]: [os.Stderr], or a buffer of the client. *)
Inductive Writer : Type :=
  | Stderr
  | Buffer (id : nat).

#[global] Instance Writer_eq_dec : EqDecision Writer.
Proof. solve_decision. Defined.

(** The text a writer has received. *)
Definition written (w : Writer) (log : list (Writer * string)) : string :=
  foldr (fun ev acc => if decide (ev.1 = w) then ev.2 +:+ acc else acc) "" log.

(** How a call ends: it returns an error value ([None] is [nil]), or it
    panics. *)
Inductive outcome : Type :=
  | Returned (err : option error)
  | Panicked (msg : string).

Section World.
Context {St : Type}.

(** The world: everything written so far, in order, and the client's state. *)
Record World : Type := mkWorld {
  out : list (Writer * string);
  client : St
}.

(** [fmt.Fprintf(w, ...)] with the formatted text [s]. The code drops the
    result of every write, so a failing writer changes nothing it does. *)
Definition Fprintf (w : Writer) (s : string) (σ : World) : World :=
  mkWorld (out σ ++ [(w, s)]) (client σ).

(** Several writes in order. *)
Definition emit (evs : list (Writer * string)) (σ : World) : World :=
  mkWorld (out σ ++ evs) (client σ).

End World.
Arguments World : clear implicits.

(** ** Package flag

    The part of Go's [flag] package that [sub.go] calls: [NewFlagSet] with
    [ContinueOnError], [SetOutput], the field [Usage], flag definition,
    [Parse] with [NArg], [Arg] and [Args], and [PrintDefaults]. *)
Module flag.
Section Flag.
Context {St : Type} `{Platform}.

(** The dynamic type of a [flag.Value], as far as the package looks at it:
    the package's own value types, or a type of the client, which may have
    an [IsBoolFlag] method ([isBool]) and whose zero value prints as
    [zero]. *)
Inductive ValueKind : Type :=
  | boolValue | durationValue | float64Value | intValue | int64Value
  | stringValue | uintValue | uint64Value
  | clientValue (isBool : bool) (zero : string).

(** A defined flag; its name is its key in [formal]. [SetValue] is
    [Value.Set]: it may store into the client's state and may fail. *)
Record Flag : Type := mkFlag {
  Usage : string;
  DefValue : string;
  Kind : ValueKind;
  SetValue : string -> St -> option error * St
}.

(** [fv, ok := flag.Value.(boolFlag); ok && fv.IsBoolFlag()] *)
Definition IsBoolFlag (fl : Flag) : bool :=
  match Kind fl with
  | boolValue => true
  | clientValue b _ => b
  | _ => false
  end.

(** A [FlagSet] with the [ContinueOnError] policy. [UsageFunc] is the
    field [Usage]; [None] stands for [defaultUsage], which [NewFlagSet]
    installs. [output] is [nil] until [SetOutput]. *)
Record FlagSet : Type := mkFlagSet {
  name : string;
  formal : gmap string Flag;
  args : list string;
  output : option Writer;
  UsageFunc : option (World St -> World St)
}.

Definition NewFlagSet (n : string) : FlagSet := mkFlagSet n ∅ [] None None.

Definition SetOutput (w : Writer) (f : FlagSet) : FlagSet :=
  mkFlagSet (name f) (formal f) (args f) (Some w) (UsageFunc f).

Definition SetUsage (u : World St -> World St) (f : FlagSet) : FlagSet :=
  mkFlagSet (name f) (formal f) (args f) (output f) (Some u).

Definition setArgs (a : list string) (f : FlagSet) : FlagSet :=
  mkFlagSet (name f) (formal f) a (output f) (UsageFunc f).

(** A declarator: the client's function that is handed a [FlagSet] and
    defines flags in it. It is client code: what it defines and what it
    leaves behind may depend on the state of the client, and
    [flag.StringVar], [flag.BoolVar] and the like store the default in
    the client's variable. It is modelled by the flags it defines, by
    name, and the state of the client it leaves, both as functions of the
    state of the client it runs in. [FlagSet.Var] panics on a name
    defined twice, so a declarator that returns has defined each of its
    names once. *)
Definition Declarator : Type := St -> gmap string Flag * St.

(** Running a declarator on [f]: the call [c.Flags(fset)] or
    [cmd.Flags(fset)]. *)
Definition define (d : Declarator) (f : FlagSet) (σ : World St)
  : FlagSet * World St :=
  let '(m, st) := d (client σ) in
  (mkFlagSet (name f) (m ∪ formal f) (args f) (output f) (UsageFunc f),
   mkWorld (out σ) st).

(** [f.Output()] *)
Definition Output (f : FlagSet) : Writer :=
  match output f with
  | None => Stderr
  | Some w => w
  end.

Definition NArg (f : FlagSet) : nat := length (args f).

(** [f.Arg(i)]: the empty string when [i] is out of range. *)
Definition Arg (i : nat) (f : FlagSet) : string :=
  match args f !! i with
  | Some a => a
  | None => ""
  end.

Definition Args (f : FlagSet) : list string := args f.

(** *** PrintDefaults *)

(** The text before the first byte [c] of [s], and the text after it. *)
Fixpoint cut (c : ascii) (s : string) : option (string * string) :=
  match s with
  | EmptyString => None
  | String a r =>
      if Ascii.eqb a c then Some (EmptyString, r)
      else match cut c r with
           | Some (before, after) => Some (String a before, after)
           | None => None
           end
  end.

(** The name [UnquoteUsage] takes from the value's type. *)
Definition typeName (k : ValueKind) : string :=
  match k with
  | boolValue => ""
  | clientValue true _ => ""
  | clientValue false _ => "value"
  | durationValue => "duration"
  | float64Value => "float"
  | intValue | int64Value => "int"
  | stringValue => "string"
  | uintValue | uint64Value => "uint"
  end.

(** [UnquoteUsage]: a back-quoted name in the usage text, or the name of
    the type. *)
Definition UnquoteUsage (fl : Flag) : string * string :=
  match cut "`" (Usage fl) with
  | Some (before, rest) =>
      match cut "`" rest with
      | Some (nm, after) => (nm, before +:+ nm +:+ after)
      | None => (typeName (Kind fl), Usage fl)
      end
  | None => (typeName (Kind fl), Usage fl)
  end.

(** What the zero value of the type prints as ([isZeroValue]). *)
Definition zeroString (k : ValueKind) : string :=
  match k with
  | boolValue => "false"
  | durationValue => "0s"
  | float64Value | intValue | int64Value | uintValue | uint64Value => "0"
  | stringValue => ""
  | clientValue _ z => z
  end.

(** [strings.ReplaceAll(usage, "\n", "\n    \t")] *)
Fixpoint indentUsage (s : string) : string :=
  match s with
  | EmptyString => EmptyString
  | String a r =>
      if Ascii.eqb a (ascii_of_nat 10)
      then nl +:+ "    " +:+ tab +:+ indentUsage r
      else String a (indentUsage r)
  end.

(** The text [PrintDefaults] writes for one flag, in one write. *)
Definition defaultsLine (nm : string) (fl : Flag) : string :=
  let b := "  -" +:+ nm in
  let '(tn, usage) := UnquoteUsage fl in
  let b := if 0 <? String.length tn then b +:+ " " +:+ tn else b in
  let b := if String.length b <=? 4 then b +:+ tab
           else b +:+ nl +:+ "    " +:+ tab in
  let b := b +:+ indentUsage usage in
  let b := if String.eqb (DefValue fl) (zeroString (Kind fl)) then b
           else match Kind fl with
                | stringValue => b +:+ " (default " +:+ Quote (DefValue fl) +:+ ")"
                | _ => b +:+ " (default " +:+ DefValue fl +:+ ")"
                end in
  b +:+ nl.

(** [sortFlags]: the flags of a map ordered by name. *)
Definition sortFlags (m : gmap string Flag) : list (string * Flag) :=
  merge_sort (fun a b : string * Flag => String.le a.1 b.1) (map_to_list m).

(** The whole text of [PrintDefaults], one element for each write. *)
Definition defaultsText (m : gmap string Flag) : list string :=
  map (fun p : string * Flag => defaultsLine p.1 p.2) (sortFlags m).

(** The bytes [PrintDefaults] writes, as one text. *)
Definition printed (f : FlagSet) : string :=
  foldr String.app "" (defaultsText (formal f)).

Definition PrintDefaults (f : FlagSet) (σ : World St) : World St :=
  emit (map (fun s => (Output f, s)) (defaultsText (formal f))) σ.

(** [f.defaultUsage()] *)
Definition defaultUsage (f : FlagSet) (σ : World St) : World St :=
  let σ := if String.eqb (name f) ""
           then Fprintf (Output f) ("Usage:" +:+ nl) σ
           else Fprintf (Output f) ("Usage of " +:+ name f +:+ ":" +:+ nl) σ in
  PrintDefaults f σ.

(** [f.usage()] *)
Definition usage (f : FlagSet) (σ : World St) : World St :=
  match UsageFunc f with
  | None => defaultUsage f σ
  | Some u => u σ
  end.

(** [f.failf(format, a...)] with the formatted message: the message goes
    to [f.Output()] on a line, then [usage()], and the error is returned. *)
Definition failf (f : FlagSet) (msg : string) (σ : World St) : error * World St :=
  let σ := Fprintf (Output f) (msg +:+ nl) σ in
  (parseError msg, usage f σ).

(** *** Parse *)

(** What one step of the parser gives: [seen] and [err] of [parseOne], with
    the flag set and the world as the step leaves them. *)
Definition step : Type := (bool * option error * FlagSet * World St)%type.

(** [return false, f.failf(...)] *)
Definition failed (f : FlagSet) (msg : string) (σ : World St) : step :=
  let '(e, σ) := failf f msg σ in (false, Some e, f, σ).

(** [flag.Value.Set(value)] on the client's state. *)
Definition callSet (fl : Flag) (value : string) (σ : World St)
  : option error * World St :=
  let '(err, st) := SetValue fl value (client σ) in (err, mkWorld (out σ) st).

(** The loop of [parseOne] that looks for [=] from the second byte of the
    name on: the name, [hasValue] and [value]. *)
Definition splitValue (nm : string) : string * bool * string :=
  match nm with
  | EmptyString => (nm, false, "")
  | String n0 ntail =>
      match cut "=" ntail with
      | Some (before, after) => (String n0 before, true, after)
      | None => (nm, false, "")
      end
  end.

(** [parseOne] from [flag, ok := f.formal[name]] on; [f.args] no longer
    holds the flag's own token. *)
Definition parseFlag (f : FlagSet) (nm : string) (hasValue : bool)
    (value : string) (σ : World St) : step :=
  match formal f !! nm with
  | None =>
      if String.eqb nm "help" || String.eqb nm "h"
      then (false, Some ErrHelp, f, usage f σ)
      else failed f ("flag provided but not defined: -" +:+ nm) σ
  | Some fl =>
      if IsBoolFlag fl then
        if hasValue then
          match callSet fl value σ with
          | (Some err, σ) =>
              failed f ("invalid boolean value " +:+ Quote value +:+ " for -"
                        +:+ nm +:+ ": " +:+ Error err) σ
          | (None, σ) => (true, None, f, σ)
          end
        else
          match callSet fl "true" σ with
          | (Some err, σ) =>
              failed f ("invalid boolean flag " +:+ nm +:+ ": " +:+ Error err) σ
          | (None, σ) => (true, None, f, σ)
          end
      else
        let taken :=
          if hasValue then Some (value, f)
          else match args f with
               | v :: rest => Some (v, setArgs rest f)
               | [] => None
               end in
        match taken with
        | None => failed f ("flag needs an argument: -" +:+ nm) σ
        | Some (value, f) =>
            match callSet fl value σ with
            | (Some err, σ) =>
                failed f ("invalid value " +:+ Quote value +:+ " for flag -"
                          +:+ nm +:+ ": " +:+ Error err) σ
            | (None, σ) => (true, None, f, σ)
            end
        end
  end.

(** [f.parseOne()] *)
Definition parseOne (f : FlagSet) (σ : World St) : step :=
  match args f with
  | [] => (false, None, f, σ)
  | s :: rest =>
      match s with
      | String s0 (String s1 s2) =>
          if negb (Ascii.eqb s0 "-") then (false, None, f, σ)
          else if Ascii.eqb s1 "-" && String.eqb s2 ""
          then (false, None, setArgs rest f, σ)
          else
            let nm := if Ascii.eqb s1 "-" then s2 else String s1 s2 in
            match nm with
            | EmptyString => failed f ("bad flag syntax: " +:+ s) σ
            | String n0 _ =>
                if Ascii.eqb n0 "-" || Ascii.eqb n0 "="
                then failed f ("bad flag syntax: " +:+ s) σ
                else
                  let '(nm, hasValue, value) := splitValue nm in
                  parseFlag (setArgs rest f) nm hasValue value σ
            end
      | _ => (false, None, f, σ)
      end
  end.

Lemma parseFlag_seen f nm hv v σ e f' σ' :
  parseFlag f nm hv v σ = (true, e, f', σ') ->
  length (args f') <= length (args f).
Proof.
  unfold parseFlag, failed, failf; intros Hp.
  repeat case_match; try discriminate; inversion Hp; subst; simpl; try lia.
  all: match goal with E : Some _ = Some _ |- _ => inversion E; subst; simpl; lia end.
Qed.

Lemma parseOne_seen f σ e f' σ' :
  parseOne f σ = (true, e, f', σ') ->
  length (args f') < length (args f).
Proof.
  unfold parseOne, failed, failf; intros Hp.
  repeat case_match; try discriminate.
  all: apply parseFlag_seen in Hp; simpl in Hp; simpl; lia.
Qed.

(** The loop of [Parse] under [ContinueOnError]:
    [for { seen, err := f.parseOne(); if seen { continue };
           if err == nil { break }; return err }; return nil]. *)
Equations? parseLoop (f : FlagSet) (σ : World St)
  : option error * FlagSet * World St by wf (length (args f)) lt :=
parseLoop f σ with inspect (parseOne f σ) := {
  | @exist _ _ (pair (pair (pair true _) f') σ') Hstep => parseLoop f' σ'
  | @exist _ _ (pair (pair (pair false err) f') σ') _ => (err, f', σ') }.
Proof.
  eapply parseOne_seen; eassumption.
Qed.

(** [f.Parse(arguments)] *)
Definition Parse (arguments : list string) (f : FlagSet) (σ : World St)
  : option error * FlagSet * World St :=
  parseLoop (setArgs arguments f) σ.

(** Two flag sets that differ in their arguments at most. *)
Definition sameSet (f f' : FlagSet) : Prop :=
  name f' = name f /\ formal f' = formal f
  /\ output f' = output f /\ UsageFunc f' = UsageFunc f.

(** What a parse that fails with [e] has done to the world [σ]: flags
    before the bad one may have been set (the writes are as they were);
    then, for the help flag, the usage; for any other failure, the
    message on a line of [f.Output()] and the usage, the error being one
    that [failf] made. *)
Definition failure (f : FlagSet) (e : error) (σ σ' : World St) : Prop :=
  exists σ1, out σ1 = out σ
    /\ ((e = ErrHelp /\ σ' = usage f σ1)
        \/ (exists msg, e = parseError msg
                        /\ σ' = usage f (Fprintf (Output f) (msg +:+ nl) σ1))).

End Flag.
End flag.

(** ** Package sub *)
Section Sub.
Context {St : Type} `{Platform}.

(** A command of the client: what its five methods give. [Flags] is a
    declarator; [Run] acts on the world and returns an error value or
    panics. *)
Record ClientCommand : Type := mkCommand {
  clientName : string;
  clientDesc : string;
  clientHelp : string;
  clientFlags : @flag.Declarator St;
  clientRun : list string -> World St -> outcome * World St
}.

(** A value of the interface [Command]: the [helpCmd] of the Commander
    (what [HelpCmd] returns; it holds a pointer to its Commander and reads
    the Commander as it is when it runs), or a command of the client. *)
Inductive Command : Type :=
  | helpCmd
  | clientCmd (u : ClientCommand).

(** [type Commander struct] *)
Record Commander : Type := mkCommander {
  Output : option Writer;
  Help : string;
  Flags : option (@flag.Declarator St);
  name : string;
  commands : list Command
}.

(** [c.HelpCmd()] *)
Definition Commander_HelpCmd (c : Commander) : Command := helpCmd.

Definition helpCmd_Name : string := "help".

Definition helpCmd_Desc : string := "show help for commands".

Definition helpCmd_Help : string :=
  "Usage: help [command]" +:+ nl +:+ nl +:+
  "help displays a help summary for the entire set of commands or it" +:+ nl +:+
  "shows more detailed help for a specific named subcommand.".

(** [cmd.Name()] *)
Definition Command_Name (cmd : Command) : string :=
  match cmd with
  | helpCmd => helpCmd_Name
  | clientCmd u => clientName u
  end.

(** [cmd.Desc()] *)
Definition Command_Desc (cmd : Command) : string :=
  match cmd with
  | helpCmd => helpCmd_Desc
  | clientCmd u => clientDesc u
  end.

(** [cmd.Help()] *)
Definition Command_Help (cmd : Command) : string :=
  match cmd with
  | helpCmd => helpCmd_Help
  | clientCmd u => clientHelp u
  end.

(** [cmd.Flags(fset)]; [helpCmd.Flags] has an empty body. *)
Definition Command_Flags (cmd : Command) (fset : @flag.FlagSet St)
    (σ : World St) : @flag.FlagSet St * World St :=
  match cmd with
  | helpCmd => (fset, σ)
  | clientCmd u => flag.define (clientFlags u) fset σ
  end.

(** [c.output()] *)
Definition Commander_output (c : Commander) : Writer :=
  match Output c with
  | None => Stderr
  | Some w => w
  end.

Definition setCommands (l : list Command) (c : Commander) : Commander :=
  mkCommander (Output c) (Help c) (Flags c) (name c) l.

Definition setName (n : string) (c : Commander) : Commander :=
  mkCommander (Output c) (Help c) (Flags c) n (commands c).

(** The function [Register] hands to [sort.Search]:
    [cmd.Name() < c.commands[i].Name()]. [Search] calls it below
    [len(c.commands)] only (see [Search_ext]), where the index is in range. *)
Definition nameBefore (cmd : Command) (l : list Command) (i : nat) : bool :=
  match l !! i with
  | Some x => String.ltb (Command_Name cmd) (Command_Name x)
  | None => false
  end.

(** [cmd.Name() == c.commands[i].Name()], behind [i < len(c.commands)]. *)
Definition sameNameAt (cmd : Command) (l : list Command) (i : nat) : bool :=
  match l !! i with
  | Some x => String.eqb (Command_Name cmd) (Command_Name x)
  | None => false
  end.

(** [c.Register(cmd)] *)
Definition Commander_Register (c : Commander) (cmd : Command) : Commander :=
  let i := sort.Search (length (commands c)) (nameBefore cmd (commands c)) in
  if (i <? length (commands c)) && sameNameAt cmd (commands c) i
  then setCommands (<[i := cmd]> (commands c)) c
  else setCommands (take i (commands c) ++ [cmd] ++ drop i (commands c)) c.

(** [c.get(name)]: the first command with that name; [None] is [nil]. *)
Fixpoint get_in (l : list Command) (n : string) : option Command :=
  match l with
  | [] => None
  | cmd :: rest =>
      if String.eqb (Command_Name cmd) n then Some cmd else get_in rest n
  end.

Definition Commander_get (c : Commander) (n : string) : option Command :=
  get_in (commands c) n.

(** The writes of [helpCmd.Run] go to [h.output()], that is [c.output()]. *)
Definition say (c : Commander) (s : string) (σ : World St) : World St :=
  Fprintf (Commander_output c) s σ.

(** The line of the summary for one command. *)
Definition commandLine (cmd : Command) : string :=
  tab +:+ Command_Name cmd +:+ tab +:+ tab +:+ Command_Desc cmd +:+ nl.

(** [helpCmd.Run] when [len(args) == 0]: the summary. *)
Definition helpCmd_summary (c : Commander) (σ : World St)
  : option error * World St :=
  let nm := if String.eqb (name c) "" then exeName else name c in
  let globalOptions :=
    match Flags c with
    | Some _ => " [global options]"
    | None => ""
    end in
  let σ := say c ("Usage: " +:+ nm +:+ globalOptions
                  +:+ " <subcommand> [subcommand arguments]" +:+ nl) σ in
  let σ := if String.eqb (Help c) "" then σ
           else say c (nl +:+ TrimSpace (Help c) +:+ nl) σ in
  let σ := match Flags c with
           | Some d =>
               let σ := say c (nl +:+ "Global Options:" +:+ nl) σ in
               let '(fset, σ) := flag.define d (flag.NewFlagSet nm) σ in
               flag.PrintDefaults fset σ
           | None => σ
           end in
  let σ := say c (nl +:+ "Commands:" +:+ nl) σ in
  let σ := fold_left (fun σ cmd => say c (commandLine cmd) σ) (commands c) σ in
  (None, σ).

(** [h.Run(args)]. The call [h.Run(nil)] of the second branch is the
    summary. [optionBuf] is a local buffer: after [fset.SetOutput(&optionBuf)]
    it receives what [fset.PrintDefaults()] writes, which is
    [flag.printed fset]; [io.Copy] then writes it to [h.output()]. *)
Definition helpCmd_Run (c : Commander) (args : list string) (σ : World St)
  : option error * World St :=
  match args with
  | [] => helpCmd_summary c σ
  | a0 :: _ =>
      match Commander_get c a0 with
      | None =>
          let σ := say c ("Error: No such command: " +:+ Quote a0
                          +:+ nl +:+ nl) σ in
          let '(_, σ) := helpCmd_summary c σ in
          (Some ErrHelp, σ)
      | Some cmd =>
          let σ := if String.eqb (Command_Help cmd) "" then σ
                   else say c (TrimSpace (Command_Help cmd) +:+ nl) σ in
          let fset := flag.NewFlagSet (Command_Name cmd) in
          let '(fset, σ) := Command_Flags cmd fset σ in
          let optionBuf := flag.printed fset in
          let σ := if 0 <? String.length optionBuf
                   then say c optionBuf (say c (nl +:+ "Options:" +:+ nl) σ)
                   else σ in
          (None, σ)
      end
  end.

(** [cmd.Run(args)] for a command registered with [c]. *)
Definition Command_Run (c : Commander) (cmd : Command) (args : list string)
    (σ : World St) : outcome * World St :=
  match cmd with
  | helpCmd => let '(err, σ) := helpCmd_Run c args σ in (Returned err, σ)
  | clientCmd u => clientRun u args σ
  end.

(** The flag set [Run] parses the global flags with, and the world
    after it is made: [flag.NewFlagSet(args[0], flag.ContinueOnError)],
    its [Usage] set to [c.HelpCmd().Run(nil)], and [c.Flags(fset)] when
    [c.Flags] is not [nil]. [c] already holds [args[0]] as its name. *)
Definition globalSet (c : Commander) (σ : World St)
  : @flag.FlagSet St * World St :=
  let fset := flag.NewFlagSet (name c) in
  let fset := flag.SetUsage (fun σ => (helpCmd_Run c [] σ).2) fset in
  match Flags c with
  | Some d => flag.define d fset σ
  | None => (fset, σ)
  end.

(** The flag set [Run] parses the flags of [cmd] with, and the world
    after it is made: [flag.NewFlagSet(cmd.Name(), flag.ContinueOnError)],
    its [Usage] set to [c.HelpCmd().Run([]string{cmd.Name()})], and
    [cmd.Flags(sub)]. *)
Definition subSet (c : Commander) (cmd : Command) (σ : World St)
  : @flag.FlagSet St * World St :=
  let sub := flag.NewFlagSet (Command_Name cmd) in
  let sub := flag.SetUsage (fun σ => (helpCmd_Run c [Command_Name cmd] σ).2) sub in
  Command_Flags cmd sub σ.

(** [c.Run(args)]: how the call ends, the Commander (its [name] is
    assigned) and the world. [fset.Usage()] calls the field [Usage], which
    [globalSet] has set: that is [flag.usage fset]. *)
Definition Commander_Run (c : Commander) (args : list string) (σ : World St)
  : outcome * Commander * World St :=
  match args with
  | [] => (Panicked "runtime error: index out of range [0] with length 0", c, σ)
  | a0 :: rest =>
      let c := setName a0 c in
      let '(fset, σ) := globalSet c σ in
      let '(err, fset, σ) := flag.Parse rest fset σ in
      match err with
      | Some e => (Returned (Some e), c, σ)
      | None =>
          if flag.NArg fset =? 0
          then (Returned (Some ErrHelp), c, flag.usage fset σ)
          else
            match Commander_get c (flag.Arg 0 fset) with
            | None =>
                let σ := say c ("Error: No such command: "
                                +:+ Quote (flag.Arg 0 fset) +:+ nl +:+ nl) σ in
                (Returned (Some ErrHelp), c, flag.usage fset σ)
            | Some cmd =>
                let '(sub, σ) := subSet c cmd σ in
                let '(err, sub, σ) :=
                  flag.Parse (drop 1 (flag.Args fset)) sub σ in
                match err with
                | Some e => (Returned (Some e), c, σ)
                | None =>
                    let '(r, σ) := Command_Run c cmd (flag.Args sub) σ in
                    (r, c, σ)
                end
            end
      end
  end.

(** The zero [Commander] with its exported fields set, as a client makes
    it: no name yet, no commands. *)
Definition newCommander (o : option Writer) (h : string)
    (f : option (@flag.Declarator St)) : Commander :=
  mkCommander o h f "" [].

(** The flags a command defines when its [Flags] runs in the state [st]
    of the client. *)
Definition declared (cmd : Command) (st : St) : gmap string (@flag.Flag St) :=
  match cmd with
  | helpCmd => ∅
  | clientCmd u => (clientFlags u st).1
  end.

(** The world after the [Flags] of a command has run: the writes are as
    they were, the state of the client is the one the declarator leaves. *)
Definition afterFlags (cmd : Command) (σ : World St) : World St :=
  match cmd with
  | helpCmd => σ
  | clientCmd u => mkWorld (out σ) (clientFlags u (client σ)).2
  end.

(** The world after the declarator of the global flags has run, when
    there is one. *)
Definition afterGlobal (c : Commander) (σ : World St) : World St :=
  match Flags c with
  | Some d => mkWorld (out σ) (d (client σ)).2
  | None => σ
  end.

(** A token that the parser of a command's flags [m] takes for a request
    for help: [-h], [--h], [-help] or [--help] when [m] defines no flag of
    that name. *)
Definition helpRequest (m : gmap string (@flag.Flag St)) (tok : string) : Prop :=
  ((tok = "-h" \/ tok = "--h") /\ m !! "h" = None)
  \/ ((tok = "-help" \/ tok = "--help") /\ m !! "help" = None).

(** ** The order of the registry *)

(** The commands are in the order of their names: no name is after a
    later one. *)
Definition sortedByName (l : list Command) : Prop :=
  StronglySorted String.le (map Command_Name l).

(** Where [Register] puts a command in a sorted registry. *)
Definition slot (cmd : Command) (l : list Command) : nat := sort.Search (length l) (nameBefore cmd l).

(** Any number of registrations, in any order. *)
Definition registerAll (c : Commander) (cmds : list Command) : Commander :=
  foldl Commander_Register c cmds.

(** ** The texts of the help, stated apart from the code *)

(** The name the summary shows. *)
Definition displayName (c : Commander) : string :=
  if String.eqb (name c) "" then exeName else name c.

Definition usageLine (c : Commander) : string :=
  "Usage: " +:+ displayName c
  +:+ match Flags c with
      | Some _ => " [global options]"
      | None => ""
      end
  +:+ " <subcommand> [subcommand arguments]" +:+ nl.

Definition helpBlock (c : Commander) : list (Writer * string) :=
  if String.eqb (Help c) "" then []
  else [(Commander_output c, nl +:+ TrimSpace (Help c) +:+ nl)].

(** The heading goes to [c.output()]; the lines of the flags are written
    by [PrintDefaults] of a flag set whose output was never set, to
    [os.Stderr]. The flags are those the declarator defines in the state
    [st] of the client. *)
Definition globalBlock (c : Commander) (st : St) : list (Writer * string) :=
  match Flags c with
  | Some d =>
      (Commander_output c, nl +:+ "Global Options:" +:+ nl)
      :: map (fun s => (Stderr, s)) (flag.defaultsText (d st).1)
  | None => []
  end.

Definition commandLines (c : Commander) : list (Writer * string) :=
  map (fun cmd => (Commander_output c, commandLine cmd)) (commands c).

Definition commandsBlock (c : Commander) : list (Writer * string) :=
  (Commander_output c, nl +:+ "Commands:" +:+ nl) :: commandLines c.

(** Every write of the summary, in order, when it runs in the state [st]
    of the client. *)
Definition summaryText (c : Commander) (st : St) : list (Writer * string) :=
  (Commander_output c, usageLine c)
  :: helpBlock c ++ globalBlock c st ++ commandsBlock c.

(** The notice for a name that is not registered. *)
Definition noSuchCommand (c : Commander) (n : string) : Writer * string :=
  (Commander_output c, "Error: No such command: " +:+ Quote n +:+ nl +:+ nl).

(** Every write of the help of one command, in order, when it runs in
    the state [st] of the client. *)
Definition detailText (c : Commander) (cmd : Command) (st : St)
  : list (Writer * string) :=
  (if String.eqb (Command_Help cmd) "" then []
   else [(Commander_output c, TrimSpace (Command_Help cmd) +:+ nl)])
  ++ (if decide (declared cmd st = ∅)
      then []
      else [(Commander_output c, nl +:+ "Options:" +:+ nl);
            (Commander_output c,
             foldr String.app "" (flag.defaultsText (declared cmd st)))]).

End Sub.

(** ** What else the properties below speak of *)

(** A token at which the parser stops without an error because it is no
    flag: [len(s) < 2 || s[0] != '-'] in [parseOne]. *)
Definition nonFlag (s : string) : bool :=
  match s with
  | String s0 (String _ _) => negb (Ascii.eqb s0 "-")
  | _ => true
  end.

(** ** The earlier Commander

    The first version of [sub.go]: the fields [help] and [flags] are not
    exported and are set by the methods [Help] and [Flags], there is no
    field [Output], and every write goes to [os.Stderr]. [helpCmd] is the
    Commander itself under another type; the commands are the same
    interface. *)
Module v1.
Section V1.
Context {St : Type} `{Platform}.

(** [type Commander struct] *)
Record Commander : Type := mkCommander {
  name : string;
  help : string;
  flags : option (@flag.Declarator St);
  commands : list (@Command St)
}.

(** The zero value, [var commander sub.Commander]. *)
Definition zero : Commander := mkCommander "" "" None [].

(** [c.Register(cmd)] *)
Definition Register (c : Commander) (cmd : @Command St) : Commander :=
  let i := sort.Search (length (commands c)) (nameBefore cmd (commands c)) in
  if (i <? length (commands c)) && sameNameAt cmd (commands c) i
  then mkCommander (name c) (help c) (flags c) (<[i := cmd]> (commands c))
  else mkCommander (name c) (help c) (flags c)
         (take i (commands c) ++ [cmd] ++ drop i (commands c)).

(** [c.get(name)] *)
Definition get (c : Commander) (n : string) : option (@Command St) :=
  get_in (commands c) n.

(** [c.Help(help)] *)
Definition Help (h : string) (c : Commander) : Commander :=
  mkCommander (name c) h (flags c) (commands c).

(** [c.Flags(flags)]; [None] is a [nil] function. *)
Definition Flags (fl : option (@flag.Declarator St)) (c : Commander)
  : Commander :=
  mkCommander (name c) (help c) fl (commands c).

(** [h.Run(args)] when [len(args) == 0]: the summary. *)
Definition helpCmd_summary (c : Commander) (σ : World St)
  : option error * World St :=
  let nm := if String.eqb (name c) "" then exeName else name c in
  let globalOptions :=
    match flags c with
    | Some _ => " [global options]"
    | None => ""
    end in
  let σ := Fprintf Stderr ("Usage: " +:+ nm +:+ globalOptions
                           +:+ " <subcommand> [subcommand arguments]"
                           +:+ nl) σ in
  let σ := if String.eqb (help c) "" then σ
           else Fprintf Stderr (nl +:+ TrimSpace (help c) +:+ nl) σ in
  let σ := match flags c with
           | Some d =>
               let σ := Fprintf Stderr (nl +:+ "Global Options:" +:+ nl) σ in
               let '(fset, σ) := flag.define d (flag.NewFlagSet nm) σ in
               flag.PrintDefaults fset σ
           | None => σ
           end in
  let σ := Fprintf Stderr (nl +:+ "Commands:" +:+ nl) σ in
  let σ := fold_left (fun σ cmd => Fprintf Stderr (commandLine cmd) σ)
             (commands c) σ in
  (None, σ).

(** [h.Run(args)]; the call [h.Run(nil)] of the second branch is the
    summary, and [optionBuf] holds what [PrintDefaults] writes. *)
Definition helpCmd_Run (c : Commander) (args : list string) (σ : World St)
  : option error * World St :=
  match args with
  | [] => helpCmd_summary c σ
  | a0 :: _ =>
      match get c a0 with
      | None =>
          let σ := Fprintf Stderr ("Error: No such command: " +:+ Quote a0
                                   +:+ nl +:+ nl) σ in
          let '(_, σ) := helpCmd_summary c σ in
          (Some ErrHelp, σ)
      | Some cmd =>
          let σ := if String.eqb (Command_Help cmd) "" then σ
                   else Fprintf Stderr (TrimSpace (Command_Help cmd) +:+ nl) σ in
          let fset := flag.NewFlagSet (Command_Name cmd) in
          let '(fset, σ) := Command_Flags cmd fset σ in
          let optionBuf := flag.printed fset in
          let σ := if 0 <? String.length optionBuf
                   then Fprintf Stderr optionBuf
                          (Fprintf Stderr (nl +:+ "Options:" +:+ nl) σ)
                   else σ in
          (None, σ)
      end
  end.

(** [cmd.Run(args)] for a command registered with [c]. *)
Definition Command_Run (c : Commander) (cmd : @Command St)
    (args : list string) (σ : World St) : outcome * World St :=
  match cmd with
  | helpCmd => let '(err, σ) := helpCmd_Run c args σ in (Returned err, σ)
  | clientCmd u => clientRun u args σ
  end.

(** [c.Run(args)] *)
Definition Run (c : Commander) (args : list string) (σ : World St)
  : outcome * Commander * World St :=
  match args with
  | [] => (Panicked "runtime error: index out of range [0] with length 0", c, σ)
  | a0 :: rest =>
      let c := mkCommander a0 (help c) (flags c) (commands c) in
      let fset := flag.NewFlagSet a0 in
      let fset := flag.SetUsage (fun σ => (helpCmd_Run c [] σ).2) fset in
      let '(fset, σ) := match flags c with
                        | Some d => flag.define d fset σ
                        | None => (fset, σ)
                        end in
      let '(err, fset, σ) := flag.Parse rest fset σ in
      match err with
      | Some e => (Returned (Some e), c, σ)
      | None =>
          if flag.NArg fset =? 0
          then (Returned (Some ErrHelp), c, flag.usage fset σ)
          else
            match get c (flag.Arg 0 fset) with
            | None =>
                let σ := Fprintf Stderr ("Error: No such command: "
                                         +:+ Quote (flag.Arg 0 fset)
                                         +:+ nl +:+ nl) σ in
                (Returned (Some ErrHelp), c, flag.usage fset σ)
            | Some cmd =>
                let sub := flag.NewFlagSet (Command_Name cmd) in
                let sub :=
                  flag.SetUsage
                    (fun σ => (helpCmd_Run c [Command_Name cmd] σ).2) sub in
                let '(sub, σ) := Command_Flags cmd sub σ in
                let '(err, sub, σ) :=
                  flag.Parse (drop 1 (flag.Args fset)) sub σ in
                match err with
                | Some e => (Returned (Some e), c, σ)
                | None =>
                    let '(r, σ) := Command_Run c cmd (flag.Args sub) σ in
                    (r, c, σ)
                end
            end
      end
  end.

End V1.
End v1.

Section Upgrade.
Context {St : Type}.

(** The later Commander that holds what an earlier one holds, its
    [Output] left [nil]. *)
Definition upgrade (c : @v1.Commander St) : @Commander St :=
  mkCommander None (v1.help c) (v1.flags c) (v1.name c) (v1.commands c).

End Upgrade.

(** ** The commands of the tests

    The Commander of [sub_test.go] and its [testCmd], for text of printable
    ASCII bytes: [asciiTrimSpace] trims the space bytes of ASCII and
    [asciiQuote] puts the text between double quotes, with a backslash
    before a double quote or a backslash in it, as [strings.TrimSpace]
    and [%q] do on such text. The client's state is the variables that flags are bound
    to: the field [flag] of [testCmd] and a variable [verbose]; the
    buffers [cout] and [testout] of the test are the writers [Buffer 0]
    and [Buffer 1]. *)
Module Example.

Definition isSpace (a : ascii) : bool :=
  let n := nat_of_ascii a in (n =? 32) || ((9 <=? n) && (n <=? 13)).

Fixpoint trimLeft (s : string) : string :=
  match s with
  | String a r => if isSpace a then trimLeft r else s
  | EmptyString => s
  end.

Definition asciiTrimSpace (s : string) : string :=
  String.rev (trimLeft (String.rev (trimLeft s))).

Definition dq : string := String (ascii_of_nat 34) EmptyString.
Definition backslash : string := String (ascii_of_nat 92) EmptyString.

(** The escapes of [strconv.Quote] for the double quote, the backslash
    and the bytes ['\n'], ['\r'] and ['\t']; any other byte is kept. *)
Fixpoint escape (s : string) : string :=
  match s with
  | EmptyString => EmptyString
  | String a r =>
      let n := nat_of_ascii a in
      (if n =? 34 then backslash +:+ dq
       else if n =? 92 then backslash +:+ backslash
       else if n =? 10 then backslash +:+ "n"
       else if n =? 13 then backslash +:+ "r"
       else if n =? 9 then backslash +:+ "t"
       else String a EmptyString) +:+ escape r
  end.

Definition asciiQuote (s : string) : string := dq +:+ escape s +:+ dq.

Definition asciiPlatform : Platform :=
  {| TrimSpace := asciiTrimSpace; Quote := asciiQuote; exeName := "subtest" |}.

Definition cout : Writer := Buffer 0.
Definition testout : Writer := Buffer 1.

(** The variables of the client. *)
Record Vars : Type := mkVars {
  verbose : bool;
  cmdFlag : string
}.

Definition setVerbose (b : bool) (st : Vars) : Vars := mkVars b (cmdFlag st).
Definition setCmdFlag (s : string) (st : Vars) : Vars := mkVars (verbose st) s.

(** [fset.StringVar(&cmd.flag, "flag", "test", "a flag test")]: the flag,
    whose [Set] stores the value, and the declarator, which stores the
    default. *)
Definition flagFlag : @flag.Flag Vars :=
  flag.mkFlag "a flag test" "test" flag.stringValue
    (fun v st => (None, setCmdFlag v st)).

Definition testFlags : @flag.Declarator Vars :=
  fun st => ({[ "flag" := flagFlag ]}, setCmdFlag "test" st).

(** A declarator that defines nothing. *)
Definition noFlags : @flag.Declarator Vars := fun st => (∅, st).

Definition testCmd : @Command Vars :=
  clientCmd (mkCommand "test" "a simple test"
"
This is just a simple test.
No, really. That's it.
Probably.
"
    testFlags
    (fun args σ =>
       match args with
       | [] => (Panicked "runtime error: index out of range [0] with length 0", σ)
       | a :: _ => (Returned None, Fprintf testout (asciiQuote a) σ)
       end)).

Definition testCommander : @Commander Vars :=
  Commander_Register
    (Commander_Register
       (mkCommander (Some cout) "
Even more help text.
" None "" [])
       helpCmd)
    testCmd.

Definition world0 : World Vars := mkWorld [] (mkVars false "").

Definition runTest (args : list string) : outcome * string * string :=
  let '(r, _, σ) := Commander_Run (H := asciiPlatform) testCommander args world0 in
  (r, written cout (out σ), written testout (out σ)).

(** Two commands of one name, and a Commander with a global flag [-v]
    whose output is the buffer [cout]. *)
Definition oldCmd : @Command Vars :=
  clientCmd (mkCommand "build" "the first one" "" noFlags
               (fun _ σ => (Returned None, σ))).

Definition newCmd : @Command Vars :=
  clientCmd (mkCommand "build" "the second one" "" noFlags
               (fun _ σ => (Returned None, σ))).

(** [strconv.ParseBool] *)
Definition parseBool (s : string) : option bool :=
  if existsb (String.eqb s) ["1"; "t"; "T"; "TRUE"; "true"; "True"]
  then Some true
  else if existsb (String.eqb s) ["0"; "f"; "F"; "FALSE"; "false"; "False"]
  then Some false
  else None.

(** [fset.BoolVar(&verbose, "v", false, "be verbose")]: [Set] stores what
    [strconv.ParseBool] gives and fails with [errParse] when it gives
    nothing; the declarator stores the default. *)
Definition verboseFlag : @flag.Flag Vars :=
  flag.mkFlag "be verbose" "false" flag.boolValue
    (fun v st =>
       match parseBool v with
       | Some b => (None, setVerbose b st)
       | None => (Some (parseError "parse error"), setVerbose false st)
       end).

Definition verboseFlags : @flag.Declarator Vars :=
  fun st => ({[ "v" := verboseFlag ]}, setVerbose false st).

Definition globalCommander : @Commander Vars :=
  Commander_Register (newCommander (Some cout) "" (Some verboseFlags)) testCmd.

(** A command whose name has the shape of a flag, and two commands of
    one name that have help texts. *)
Definition dashCmd : @Command Vars :=
  clientCmd (mkCommand "-x" "a name like a flag" "Help of -x." noFlags
               (fun _ σ => (Returned None, σ))).

Definition dashCommander : @Commander Vars :=
  Commander_Register (newCommander (Some cout) "" None) dashCmd.

Definition firstCmd : @Command Vars :=
  clientCmd (mkCommand "build" "the first one" "Help of the first." noFlags
               (fun _ σ => (Returned None, σ))).

Definition secondCmd : @Command Vars :=
  clientCmd (mkCommand "build" "the second one" "Help of the second." noFlags
               (fun _ σ => (Returned None, σ))).

Definition twiceCommander : @Commander Vars :=
  Commander_Register
    (Commander_Register (newCommander (Some cout) "" None) firstCmd)
    secondCmd.



End Example.
(** * Properties *)

(** ** sort.Search *)
Section SearchFacts.

(** One turn of the loop. *)
Lemma searchLoop_unfold (f : nat -> bool) (i j : nat) :
  sort.searchLoop f i j =
  if decide (i < j)
  then if f (sort.mid i j)
       then sort.searchLoop f i (sort.mid i j)
       else sort.searchLoop f (sort.mid i j + 1) j
  else i.
Proof.
  rewrite sort.searchLoop_equation_1.
  destruct (decide (i < j)); simpl; [|reflexivity].
  destruct (f (sort.mid i j)); reflexivity.
Qed.

(** The loop never calls [f] outside [[i, j)]: two functions that agree
    there give the same index. *)
Lemma searchLoop_ext (f g : nat -> bool) (i j : nat) :
  (forall k, i <= k < j -> f k = g k) ->
  sort.searchLoop f i j = sort.searchLoop g i j.
Proof.
  funelim (sort.searchLoop f i j); intros Hfg;
    rewrite (searchLoop_unfold g i j), Heq0 || rewrite (searchLoop_unfold g i j), Heq.
  - reflexivity.
  - pose proof (sort.mid_bounds i j Hlt) as Hm.
    rewrite <- (Hfg (sort.mid i j)), Heq by lia.
    apply H. intros k Hk; apply Hfg; lia.
  - pose proof (sort.mid_bounds i j Hlt) as Hm.
    rewrite <- (Hfg (sort.mid i j)), Heq by lia.
    apply H. intros k Hk; apply Hfg; lia.
Qed.

Lemma Search_ext (n : nat) (f g : nat -> bool) :
  (forall k, k < n -> f k = g k) -> sort.Search n f = sort.Search n g.
Proof.
  intros Hfg; apply searchLoop_ext; intros k Hk; apply Hfg; lia.
Qed.

(** On a function that is [false] up to some index and [true] from it on,
    the loop finds that index. *)
Lemma searchLoop_spec (f : nat -> bool) (n i j : nat) :
  (forall a b, a <= b < n -> f a = true -> f b = true) ->
  i <= j <= n ->
  (forall k, k < i -> f k = false) ->
  (forall k, j <= k < n -> f k = true) ->
  i <= sort.searchLoop f i j <= j
  /\ (forall k, k < sort.searchLoop f i j -> f k = false)
  /\ (forall k, sort.searchLoop f i j <= k < n -> f k = true).
Proof.
  revert n. funelim (sort.searchLoop f i j); intros n0 Hmono Hij Hlo Hhi.
  - assert (i = j) as -> by lia. repeat split; auto; lia.
  - pose proof (sort.mid_bounds i j Hlt) as Hm.
    destruct (H n0 Hmono) as (Hr & Hbelow & Habove); [lia | assumption | |].
    { intros k Hk. apply (Hmono (sort.mid i j)); [lia | assumption]. }
    repeat split; auto; lia.
  - pose proof (sort.mid_bounds i j Hlt) as Hm.
    destruct (H n0 Hmono) as (Hr & Hbelow & Habove); [lia | | assumption |].
    { intros k Hk. destruct (f k) eqn:Hfk; [|reflexivity].
      rewrite (Hmono k (sort.mid i j)) in Heq; [discriminate | lia | assumption]. }
    repeat split; auto; lia.
Qed.

Lemma Search_spec (f : nat -> bool) (n : nat) :
  (forall a b, a <= b < n -> f a = true -> f b = true) ->
  sort.Search n f <= n
  /\ (forall k, k < sort.Search n f -> f k = false)
  /\ (forall k, sort.Search n f <= k < n -> f k = true).
Proof.
  intros Hmono. unfold sort.Search.
  destruct (searchLoop_spec f n 0 n Hmono) as (Hr & Hb & Ha);
    [lia | intros; lia | intros; lia |].
  repeat split; auto; lia.
Qed.

End SearchFacts.

(** ** The registry *)
Section Registry.
Context {St : Type}.
Implicit Types (c : @Commander St) (cmd : @Command St) (l : list (@Command St)).

(** Go's [a < b] on strings against the order [String.le]. *)
Lemma ltb_false_le (a b : string) : String.ltb a b = false <-> String.le b a.
Proof.
  unfold String.ltb, String.le, String.leb.
  rewrite (String.compare_antisym a b).
  destruct (b ?= a)%string; simpl; intuition discriminate.
Qed.

Lemma ltb_true_le (a b : string) : String.ltb a b = true -> String.le a b.
Proof.
  unfold String.ltb, String.le, String.leb.
  destruct (a ?= b)%string; simpl; intuition discriminate.
Qed.

Lemma ltb_irrefl (a : string) : String.ltb a a = false.
Proof. apply ltb_false_le. reflexivity. Qed.

Lemma ltb_le_trans (a b d : string) :
  String.ltb a b = true -> String.le b d -> String.ltb a d = true.
Proof.
  intros Hab Hbd. destruct (String.ltb a d) eqn:Had; [reflexivity|].
  apply ltb_false_le in Had.
  assert (b = a) as ->.
  { apply (anti_symm String.le); [by etrans | by apply ltb_true_le]. }
  rewrite ltb_irrefl in Hab; discriminate.
Qed.

Lemma StronglySorted_lookup {A} (R : A -> A -> Prop) (l : list A) i j x y :
  StronglySorted R l -> i < j -> l !! i = Some x -> l !! j = Some y -> R x y.
Proof.
  intros Hs. revert i j. induction Hs as [|a l Hs IH Hall]; intros i j Hij Hi Hj.
  - rewrite lookup_nil in Hi; discriminate.
  - destruct j as [|j]; [lia|]. simpl in Hj. destruct i as [|i]; simpl in Hi.
    + inversion Hi; subst. rewrite Forall_forall in Hall. apply Hall.
      eapply list_elem_of_lookup_2; eassumption.
    + apply (IH i j); [lia | assumption..].
Qed.

Lemma nameBefore_mono cmd l (a b : nat) :
  sortedByName l -> a <= b < length l ->
  nameBefore cmd l a = true -> nameBefore cmd l b = true.
Proof.
  unfold nameBefore; intros Hs Hab Ha.
  destruct (l !! a) as [x|] eqn:Hx; [|discriminate].
  destruct (lookup_lt_is_Some_2 l b) as [y Hy]; [lia|]. rewrite Hy.
  destruct (decide (a = b)) as [->|Hne]; [congruence|].
  apply (ltb_le_trans _ _ _ Ha).
  apply (StronglySorted_lookup String.le (map Command_Name l) a b); [assumption | lia | |].
  - by rewrite list_lookup_fmap, Hx.
  - by rewrite list_lookup_fmap, Hy.
Qed.

Lemma slot_spec cmd l :
  sortedByName l ->
  slot cmd l <= length l
  /\ (forall k x, k < slot cmd l -> l !! k = Some x ->
        String.le (Command_Name x) (Command_Name cmd))
  /\ (forall k x, slot cmd l <= k -> l !! k = Some x ->
        String.ltb (Command_Name cmd) (Command_Name x) = true).
Proof.
  intros Hs. unfold slot.
  destruct (Search_spec (nameBefore cmd l) (length l)) as (Hle & Hb & Ha).
  { intros a b Hab. by apply nameBefore_mono. }
  split; [assumption|]. split.
  - intros k x Hk Hx. specialize (Hb k Hk). unfold nameBefore in Hb.
    rewrite Hx in Hb. by apply ltb_false_le.
  - intros k x Hk Hx. specialize (Ha k). unfold nameBefore in Ha.
    rewrite Hx in Ha. apply Ha. split; [assumption|].
    eapply lookup_lt_Some; eassumption.
Qed.

(** In a sorted registry the test for an equal name never holds: the
    command at the slot has a later name. *)
Lemma Register_inserts c cmd :
  sortedByName (commands c) ->
  Commander_Register c cmd =
  setCommands (take (slot cmd (commands c)) (commands c) ++ [cmd]
               ++ drop (slot cmd (commands c)) (commands c)) c.
Proof.
  intros Hs. unfold Commander_Register. fold (slot cmd (commands c)).
  destruct (slot_spec cmd (commands c) Hs) as (Hle & Hb & Ha).
  destruct (slot cmd (commands c) <? length (commands c)) eqn:Hlt;
    simpl; [|reflexivity].
  apply Nat.ltb_lt in Hlt. unfold sameNameAt.
  destruct (lookup_lt_is_Some_2 _ _ Hlt) as [x Hx]. rewrite Hx.
  specialize (Ha _ x (le_n _) Hx).
  destruct (String.eqb_spec (Command_Name cmd) (Command_Name x)) as [Heq|Hne];
    [|reflexivity].
  rewrite Heq, ltb_irrefl in Ha; discriminate.
Qed.

Lemma Register_sorted c cmd :
  sortedByName (commands c) -> sortedByName (commands (Commander_Register c cmd)).
Proof.
  intros Hs. rewrite (Register_inserts c cmd Hs). simpl.
  destruct (slot_spec cmd (commands c) Hs) as (Hle & Hb & Ha).
  set (i := slot cmd (commands c)) in *.
  unfold sortedByName in *. rewrite !map_app. simpl.
  rewrite <- (take_drop i (commands c)), map_app in Hs.
  apply StronglySorted_app_1_l in Hs as Hl.
  apply StronglySorted_app_1_r in Hs as Hr.
  apply StronglySorted_app_2; [| assumption |].
  2: { constructor; [assumption|]. apply Forall_forall. intros n Hn.
    apply list_elem_of_fmap in Hn as (x & -> & Hx).
    apply list_elem_of_lookup in Hx as (k & Hk). rewrite lookup_drop in Hk.
    apply ltb_true_le. apply (Ha (i + k) x); [lia | assumption]. }
  intros n1 n2 Hn1 Hn2.
    apply list_elem_of_fmap in Hn1 as (x & -> & Hx).
    apply list_elem_of_lookup in Hx as (k & Hk).
    apply lookup_take_Some in Hk as (Hk & Hki).
    assert (String.le (Command_Name x) (Command_Name cmd)) as Hxc by eauto.
    apply elem_of_cons in Hn2 as [->|Hn2]; [assumption|].
    apply list_elem_of_fmap in Hn2 as (y & -> & Hy).
    apply list_elem_of_lookup in Hy as (k' & Hk'). rewrite lookup_drop in Hk'.
    etrans; [exact Hxc|]. apply ltb_true_le. apply (Ha (i + k') y); [lia | assumption].
Qed.

Lemma registerAll_sorted c cmds :
  sortedByName (commands c) -> sortedByName (commands (registerAll c cmds)).
Proof.
  revert c. induction cmds as [|cmd cmds IH]; intros c Hs; simpl; [assumption|].
  apply IH, Register_sorted, Hs.
Qed.

End Registry.

(** ** flag.Parse *)
Section ParseFacts.
Context {St : Type} `{Platform}.
Implicit Types (f : @flag.FlagSet St) (σ : World St).

Lemma usage_same f f' σ :
  flag.sameSet f f' -> flag.usage f' σ = flag.usage f σ.
Proof.
  intros (Hn & Hf & Ho & Hu).
  unfold flag.usage, flag.defaultUsage, flag.PrintDefaults, flag.Output.
  rewrite Hn, Hf, Ho, Hu. reflexivity.
Qed.

Lemma Output_same f f' : flag.sameSet f f' -> flag.Output f' = flag.Output f.
Proof. intros (_ & _ & Ho & _). unfold flag.Output. by rewrite Ho. Qed.

Lemma sameSet_refl f : flag.sameSet f f.
Proof. by repeat split. Qed.

Lemma sameSet_trans f1 f2 f3 :
  flag.sameSet f1 f2 -> flag.sameSet f2 f3 -> flag.sameSet f1 f3.
Proof.
  intros (? & ? & ? & ?) (? & ? & ? & ?). repeat split; congruence.
Qed.

Lemma sameSet_setArgs a f : flag.sameSet f (flag.setArgs a f).
Proof. by repeat split. Qed.

Lemma failed_failure f0 f msg σ0 σ :
  flag.sameSet f0 f -> out σ = out σ0 ->
  exists e σ', flag.failed f msg σ = (false, Some e, f, σ')
               /\ flag.failure f0 e σ0 σ'.
Proof.
  intros Hs Ho. unfold flag.failed, flag.failf. eexists _, _. split; [reflexivity|].
  exists σ. split; [assumption|]. right. exists msg. split; [reflexivity|].
  by rewrite (usage_same f0 f), (Output_same f0 f).
Qed.

Lemma callSet_out (fl : @flag.Flag St) v σ err σ' :
  flag.callSet fl v σ = (err, σ') -> out σ' = out σ.
Proof.
  unfold flag.callSet. destruct (flag.SetValue fl v (client σ)).
  intros [= <- <-]. reflexivity.
Qed.

Ltac step_failed Hs Ho :=
  match goal with
  | Hp : flag.failed ?f ?msg ?σ = _ |- _ =>
      let e := fresh "e" in let σ2 := fresh "σ" in
      let E := fresh "E" in let F := fresh "F" in
      destruct (failed_failure _ f msg _ σ Hs Ho) as (e & σ2 & E & F);
      rewrite E in Hp; inversion Hp; subst; clear Hp
  end.

(** One step: the flag set keeps all but its arguments; a step without
    an error writes nothing; a step with an error has seen no flag and has
    written as [failure] says. *)
Lemma parseFlag_inv f0 f nm hv v σ seen err f' σ' :
  flag.sameSet f0 f ->
  flag.parseFlag f nm hv v σ = (seen, err, f', σ') ->
  flag.sameSet f0 f'
  /\ match err with
     | None => out σ' = out σ
     | Some e => seen = false /\ flag.failure f0 e σ σ'
     end.
Proof.
  intros Hs Hp. unfold flag.parseFlag in Hp.
  destruct (flag.formal f !! nm) as [fl|].
  - destruct (flag.IsBoolFlag fl).
    + destruct hv.
      * destruct (flag.callSet fl v σ) as [[err1|] σ1] eqn:Hc;
          apply callSet_out in Hc.
        -- step_failed Hs Hc. split; [assumption|]. split; [reflexivity|assumption].
        -- inversion Hp; subst. split; assumption.
      * destruct (flag.callSet fl "true" σ) as [[err1|] σ1] eqn:Hc;
          apply callSet_out in Hc.
        -- step_failed Hs Hc. split; [assumption|]. split; [reflexivity|assumption].
        -- inversion Hp; subst. split; assumption.
    + destruct hv.
      * destruct (flag.callSet fl v σ) as [[err1|] σ1] eqn:Hc;
          apply callSet_out in Hc.
        -- step_failed Hs Hc. split; [assumption|]. split; [reflexivity|assumption].
        -- inversion Hp; subst. split; assumption.
      * destruct (flag.args f) as [|v1 rest].
        -- step_failed Hs (@eq_refl _ (out σ)).
           split; [assumption|]. split; [reflexivity|assumption].
        -- assert (flag.sameSet f0 (flag.setArgs rest f)) as Hs'
             by (eapply sameSet_trans; [exact Hs | apply sameSet_setArgs]).
           destruct (flag.callSet fl v1 σ) as [[err1|] σ1] eqn:Hc;
             apply callSet_out in Hc.
           ++ step_failed Hs' Hc. split; [assumption|]. split; [reflexivity|assumption].
           ++ inversion Hp; subst. split; assumption.
  - destruct (String.eqb nm "help" || String.eqb nm "h").
    + inversion Hp; subst. split; [assumption|]. split; [reflexivity|].
      exists σ. split; [reflexivity|]. left. split; [reflexivity|].
      apply usage_same, Hs.
    + step_failed Hs (@eq_refl _ (out σ)).
      split; [assumption|]. split; [reflexivity|assumption].
Qed.

Lemma parseOne_inv f σ seen err f' σ' :
  flag.parseOne f σ = (seen, err, f', σ') ->
  flag.sameSet f f'
  /\ match err with
     | None => out σ' = out σ
     | Some e => seen = false /\ flag.failure f e σ σ'
     end.
Proof.
  intros Hp. unfold flag.parseOne in Hp.
  pose proof (sameSet_refl f) as Hs.
  assert (forall msg, flag.failed f msg σ = (seen, err, f', σ') ->
            flag.sameSet f f'
            /\ match err with
               | None => out σ' = out σ
               | Some e => seen = false /\ flag.failure f e σ σ'
               end) as Hfail.
  { intros msg Hq. step_failed Hs (@eq_refl _ (out σ)).
    split; [assumption|]. split; [reflexivity|assumption]. }
  destruct (flag.args f) as [|s rest].
  { inversion Hp; subst. split; [assumption | reflexivity]. }
  destruct s as [|s0 [|s1 s2]];
    try (inversion Hp; subst; split; [assumption | reflexivity]).
  destruct (negb (Ascii.eqb s0 "-")).
  { inversion Hp; subst. split; [assumption | reflexivity]. }
  destruct (Ascii.eqb s1 "-" && String.eqb s2 "").
  { inversion Hp; subst. split; [apply sameSet_setArgs | reflexivity]. }
  destruct (if Ascii.eqb s1 "-" then s2 else String s1 s2) as [|n0 nt].
  { eapply Hfail, Hp. }
  destruct (Ascii.eqb n0 "-" || Ascii.eqb n0 "=").
  { eapply Hfail, Hp. }
  destruct (flag.splitValue (String n0 nt)) as [[nm hv] v].
  eapply parseFlag_inv; [apply sameSet_setArgs | exact Hp].
Qed.

(** One turn of the loop of [Parse]. *)
Lemma parseLoop_unfold f σ :
  flag.parseLoop f σ =
  match flag.parseOne f σ with
  | (true, _, f', σ') => flag.parseLoop f' σ'
  | (false, err, f', σ') => (err, f', σ')
  end.
Proof.
  funelim (flag.parseLoop f σ).
  - rewrite Hstep. reflexivity.
  - rewrite e. reflexivity.
Qed.

Lemma parseLoop_inv f σ err f' σ' :
  flag.parseLoop f σ = (err, f', σ') ->
  flag.sameSet f f'
  /\ match err with
     | None => out σ' = out σ
     | Some e => flag.failure f e σ σ'
     end.
Proof.
  funelim (flag.parseLoop f σ); intros Hp.
  - destruct (H0 _ _ _ Hp) as (Hs' & Hr).
    destruct (parseOne_inv _ _ _ _ _ _ Hstep) as (Hs & Ho). destruct o as [e0|].
    { destruct Ho as (Ho & _); discriminate. }
    split; [eapply sameSet_trans; eassumption|].
    destruct err as [e|].
    + destruct Hr as (σ1 & Ho1 & Hr). exists σ1. split; [congruence|].
      destruct Hr as [[-> ->]|(msg & -> & ->)]; [left | right; exists msg].
      * by rewrite (usage_same f f').
      * by rewrite (usage_same f f'), (Output_same f f').
    + congruence.
  - inversion Hp; subst.
    destruct (parseOne_inv _ _ _ _ _ _ e) as (Hs & Ho). split; [assumption|].
    destruct err0 as [e1|]; [apply Ho | assumption].
Qed.

(** [Parse] either returns no error and has written nothing, or returns
    [ErrHelp] after the usage, or returns an error of its own after its
    message and the usage. *)
Lemma Parse_inv arguments f σ err f' σ' :
  flag.Parse arguments f σ = (err, f', σ') ->
  flag.sameSet f f'
  /\ match err with
     | None => out σ' = out σ
     | Some e => flag.failure f e σ σ'
     end.
Proof.
  unfold flag.Parse. intros Hp. apply parseLoop_inv in Hp as (Hs & Hr).
  split.
  - eapply sameSet_trans; [apply sameSet_setArgs | exact Hs].
  - destruct err; [|assumption].
    destruct Hr as (σ1 & Ho & Hr). exists σ1. split; [assumption|].
    pose proof (sameSet_setArgs arguments f) as Hsa.
    destruct Hr as [[-> ->]|(msg & -> & ->)]; [left | right; exists msg].
    + by rewrite (usage_same f _ _ Hsa).
    + by rewrite (usage_same f _ _ Hsa), (Output_same f _ Hsa).
Qed.

End ParseFacts.

(** ** The help *)
Section HelpFacts.
Context {St : Type} `{Platform}.
Implicit Types (c : @Commander St) (cmd : @Command St) (σ : World St).

Lemma emit_nil σ : emit [] σ = σ.
Proof. destruct σ. unfold emit; simpl. by rewrite app_nil_r. Qed.

Lemma emit_emit (a b : list (Writer * string)) σ :
  emit b (emit a σ) = emit (a ++ b) σ.
Proof. unfold emit; simpl. by rewrite app_assoc. Qed.

Lemma Fprintf_emit (w : Writer) (s : string) σ : Fprintf w s σ = emit [(w, s)] σ.
Proof. reflexivity. Qed.

Lemma say_emit c (s : string) σ : say c s σ = emit [(Commander_output c, s)] σ.
Proof. reflexivity. Qed.

Lemma say_lines c (l : list (@Command St)) σ :
  fold_left (fun σ cmd => say c (commandLine cmd) σ) l σ
  = emit (map (fun cmd => (Commander_output c, commandLine cmd)) l) σ.
Proof.
  revert σ. induction l as [|cmd l IH]; intros σ; simpl.
  - by rewrite emit_nil.
  - by rewrite IH, say_emit, emit_emit.
Qed.

(** What running a declarator gives: its flags are added, the writes
    stay, the state of the client is the one it leaves. *)
Lemma define_eq (d : @flag.Declarator St) (f : @flag.FlagSet St) σ :
  flag.define d f σ
  = (flag.mkFlagSet (flag.name f) ((d (client σ)).1 ∪ flag.formal f)
       (flag.args f) (flag.output f) (flag.UsageFunc f),
     mkWorld (out σ) (d (client σ)).2).
Proof. unfold flag.define. destruct (d (client σ)). reflexivity. Qed.

Lemma emit_client (evs : list (Writer * string)) σ :
  client (emit evs σ) = client σ.
Proof. reflexivity. Qed.

Lemma emit_out (evs : list (Writer * string)) σ :
  out (emit evs σ) = out σ ++ evs.
Proof. reflexivity. Qed.

Lemma afterGlobal_emit c (evs : list (Writer * string)) σ :
  afterGlobal c (emit evs σ) = emit evs (afterGlobal c σ).
Proof. unfold afterGlobal. destruct (Flags c); reflexivity. Qed.

Lemma afterFlags_emit cmd (evs : list (Writer * string)) σ :
  afterFlags cmd (emit evs σ) = emit evs (afterFlags cmd σ).
Proof. destruct cmd; reflexivity. Qed.

Lemma afterGlobal_out c σ : out (afterGlobal c σ) = out σ.
Proof. unfold afterGlobal. destruct (Flags c); reflexivity. Qed.

Lemma afterFlags_out cmd σ : out (afterFlags cmd σ) = out σ.
Proof. destruct cmd; reflexivity. Qed.

(** [cmd.Flags] on a new flag set: the flags are those the command
    defines, the world is [afterFlags]. *)
Lemma Command_Flags_world cmd (f : @flag.FlagSet St) σ :
  (Command_Flags cmd f σ).2 = afterFlags cmd σ.
Proof.
  destruct cmd as [|u]; [reflexivity|]. simpl. by rewrite define_eq.
Qed.

Lemma Command_Flags_formal cmd (nm : string) σ :
  flag.formal (Command_Flags cmd (flag.NewFlagSet nm) σ).1
  = declared cmd (client σ).
Proof.
  destruct cmd as [|u]; [reflexivity|]. simpl. rewrite define_eq.
  cbn [fst flag.formal flag.NewFlagSet]. apply (right_id_L ∅ (∪)).
Qed.

(** The summary writes [summaryText] and runs the declarator of the
    global flags; it does nothing else. *)
Lemma helpCmd_summary_eq c σ :
  helpCmd_summary c σ
  = (None, emit (summaryText c (client σ)) (afterGlobal c σ)).
Proof.
  unfold helpCmd_summary, summaryText, helpBlock, globalBlock, commandsBlock,
    commandLines, usageLine, displayName, afterGlobal.
  rewrite say_lines. f_equal.
  destruct (Flags c) as [d|].
  - rewrite define_eq. unfold flag.PrintDefaults, flag.Output.
    cbn [flag.formal flag.output flag.NewFlagSet].
    rewrite (right_id_L ∅ (∪)).
    destruct (String.eqb (Help c) ""); rewrite !say_emit;
      unfold emit; cbn [out client]; f_equal;
      rewrite <- ?app_assoc; reflexivity.
  - destruct (String.eqb (Help c) ""); rewrite !say_emit, !emit_emit;
      simpl; rewrite <- ?app_assoc; reflexivity.
Qed.

Lemma defaultsLine_not_empty (nm : string) (fl : @flag.Flag St) :
  flag.defaultsLine nm fl <> "".
Proof.
  unfold flag.defaultsLine. destruct (flag.UnquoteUsage fl) as [tn usage].
  match goal with |- ?b +:+ nl <> "" => destruct b; discriminate end.
Qed.

(** [PrintDefaults] writes something exactly when a flag is defined. *)
Lemma printed_empty (f : @flag.FlagSet St) :
  flag.printed f = "" <-> flag.formal f = ∅.
Proof.
  unfold flag.printed, flag.defaultsText, flag.sortFlags. split.
  - intros Hp. apply map_to_list_empty_iff.
    destruct (map_to_list (flag.formal f)) as [|p l] eqn:Hl; [reflexivity|].
    exfalso.
    assert (merge_sort (fun a b : string * flag.Flag => String.le a.1 b.1) (p :: l)
            ≡ₚ p :: l) as Hperm by apply merge_sort_Permutation.
    destruct (merge_sort _ (p :: l)) as [|q l'].
    { apply Permutation_nil_l in Hperm. discriminate. }
    simpl in Hp.
    pose proof (defaultsLine_not_empty q.1 q.2) as Hne.
    destruct (flag.defaultsLine q.1 q.2); [congruence | discriminate].
  - intros ->. rewrite map_to_list_empty. reflexivity.
Qed.

Lemma printed_length (f : @flag.FlagSet St) :
  (0 <? String.length (flag.printed f)) = bool_decide (flag.formal f <> ∅).
Proof.
  destruct (flag.printed f) as [|a s] eqn:Hp.
  - apply printed_empty in Hp. rewrite Hp. simpl.
    symmetry. apply bool_decide_eq_false. intros Hne; by apply Hne.
  - simpl. symmetry. apply bool_decide_eq_true. intros He.
    apply printed_empty in He. congruence.
Qed.

Lemma get_in_name (l : list (@Command St)) (n : string) cmd :
  get_in l n = Some cmd -> Command_Name cmd = n.
Proof.
  induction l as [|x l IH]; simpl; [discriminate|].
  destruct (String.eqb_spec (Command_Name x) n) as [Hn|Hn]; [|exact IH].
  by intros [= <-].
Qed.

Lemma get_in_elem (l : list (@Command St)) (n : string) cmd :
  get_in l n = Some cmd -> cmd ∈ l.
Proof.
  induction l as [|x l IH]; simpl; [discriminate|].
  destruct (String.eqb (Command_Name x) n).
  - intros [= <-]. by left.
  - intros Hg. right. by apply IH.
Qed.

(** The help of a registered command writes [detailText] and runs the
    [Flags] of the command; it does nothing else, and returns [nil]. *)
Lemma helpCmd_detail_eq c (a : string) (more : list string) cmd σ :
  Commander_get c a = Some cmd ->
  helpCmd_Run c (a :: more) σ
  = (None, emit (detailText c cmd (client σ)) (afterFlags cmd σ)).
Proof.
  intros Hg. unfold helpCmd_Run, detailText. rewrite Hg.
  set (σ1 := if String.eqb (Command_Help cmd) "" then σ
             else say c (TrimSpace (Command_Help cmd) +:+ nl) σ).
  assert (client σ1 = client σ) as Hc
    by (unfold σ1; destruct (String.eqb (Command_Help cmd) ""); reflexivity).
  pose proof (Command_Flags_world cmd (flag.NewFlagSet (Command_Name cmd)) σ1)
    as Hw.
  pose proof (Command_Flags_formal cmd (Command_Name cmd) σ1) as Hf.
  destruct (Command_Flags cmd (flag.NewFlagSet (Command_Name cmd)) σ1)
    as [fset σ2].
  simpl in Hw, Hf. subst σ2. rewrite Hc in Hf.
  rewrite printed_length, Hf. unfold flag.printed. rewrite Hf.
  unfold σ1.
  destruct (String.eqb (Command_Help cmd) "");
    destruct (decide (declared cmd (client σ) = ∅)) as [He|He]; simpl.
  - rewrite bool_decide_eq_false_2 by (intros Hn; by apply Hn).
    by rewrite emit_nil.
  - rewrite bool_decide_eq_true_2 by assumption.
    by rewrite !say_emit, emit_emit.
  - rewrite bool_decide_eq_false_2 by (intros Hn; by apply Hn).
    by rewrite say_emit, afterFlags_emit.
  - rewrite bool_decide_eq_true_2 by assumption.
    by rewrite !say_emit, afterFlags_emit, !emit_emit.
Qed.

(** The help of a name that is not registered: the notice, the summary,
    and [ErrHelp]. *)
Lemma helpCmd_unknown_eq c (a : string) (more : list string) σ :
  Commander_get c a = None ->
  helpCmd_Run c (a :: more) σ
  = (Some ErrHelp,
     emit (noSuchCommand c a :: summaryText c (client σ)) (afterGlobal c σ)).
Proof.
  intros Hg. unfold helpCmd_Run. rewrite Hg, helpCmd_summary_eq.
  by rewrite say_emit, afterGlobal_emit, emit_emit.
Qed.

End HelpFacts.

(** ** Commander.Run, path by path *)
Section RunFacts.
Context {St : Type} `{Platform}.
Implicit Types (c : @Commander St) (cmd : @Command St) (σ : World St).

Lemma get_setName c (n a : string) :
  Commander_get (setName n c) a = Commander_get c a.
Proof. reflexivity. Qed.

Lemma output_setName c (n : string) :
  Commander_output (setName n c) = Commander_output c.
Proof. reflexivity. Qed.

Lemma globalSet_world c σ : (globalSet c σ).2 = afterGlobal c σ.
Proof.
  unfold globalSet, afterGlobal. destruct (Flags c) as [d|]; [|reflexivity].
  by rewrite define_eq.
Qed.

Lemma UsageFunc_globalSet c σ :
  flag.UsageFunc (globalSet c σ).1 = Some (fun σ => (helpCmd_Run c [] σ).2).
Proof.
  unfold globalSet. destruct (Flags c) as [d|]; [|reflexivity].
  by rewrite define_eq.
Qed.

Lemma output_globalSet c σ : flag.output (globalSet c σ).1 = None.
Proof.
  unfold globalSet. destruct (Flags c) as [d|]; [|reflexivity].
  by rewrite define_eq.
Qed.

Lemma subSet_world c cmd σ : (subSet c cmd σ).2 = afterFlags cmd σ.
Proof. apply Command_Flags_world. Qed.

Lemma UsageFunc_subSet c cmd σ :
  flag.UsageFunc (subSet c cmd σ).1
  = Some (fun σ => (helpCmd_Run c [Command_Name cmd] σ).2).
Proof.
  unfold subSet. destruct cmd as [|u]; [reflexivity|]. simpl.
  by rewrite define_eq.
Qed.

Lemma output_subSet c cmd σ : flag.output (subSet c cmd σ).1 = None.
Proof.
  unfold subSet. destruct cmd as [|u]; [reflexivity|]. simpl.
  by rewrite define_eq.
Qed.

Lemma formal_subSet c cmd σ :
  flag.formal (subSet c cmd σ).1 = declared cmd (client σ).
Proof.
  unfold subSet, declared. destruct cmd as [|u]; [reflexivity|]. simpl.
  rewrite define_eq. cbn [fst flag.formal flag.SetUsage flag.NewFlagSet].
  apply (right_id_L ∅ (∪)).
Qed.

(** The usage of the global flag set is the summary. *)
Lemma usage_globalSet c σ0 (f : @flag.FlagSet St) σ :
  flag.sameSet (globalSet c σ0).1 f ->
  flag.usage f σ = emit (summaryText c (client σ)) (afterGlobal c σ).
Proof.
  intros Hs. rewrite (usage_same _ _ _ Hs).
  unfold flag.usage. rewrite UsageFunc_globalSet. cbv beta iota.
  change (helpCmd_Run c [] σ) with (helpCmd_summary c σ).
  by rewrite helpCmd_summary_eq.
Qed.

(** The usage of the flag set of a command that [get] finds is the help
    of that command. *)
Lemma usage_subSet c cmd σ0 (f : @flag.FlagSet St) σ :
  Commander_get c (Command_Name cmd) = Some cmd ->
  flag.sameSet (subSet c cmd σ0).1 f ->
  flag.usage f σ = emit (detailText c cmd (client σ)) (afterFlags cmd σ).
Proof.
  intros Hg Hs. rewrite (usage_same _ _ _ Hs).
  unfold flag.usage. rewrite UsageFunc_subSet.
  by rewrite (helpCmd_detail_eq c _ [] cmd σ Hg).
Qed.

Lemma Output_globalSet c σ0 (f : @flag.FlagSet St) :
  flag.sameSet (globalSet c σ0).1 f -> flag.Output f = Stderr.
Proof.
  intros Hs. rewrite (Output_same _ _ Hs).
  unfold flag.Output. by rewrite output_globalSet.
Qed.

Lemma Output_subSet c cmd σ0 (f : @flag.FlagSet St) :
  flag.sameSet (subSet c cmd σ0).1 f -> flag.Output f = Stderr.
Proof.
  intros Hs. rewrite (Output_same _ _ Hs).
  unfold flag.Output. by rewrite output_subSet.
Qed.

(** [Run] after its first lines, with the global flag set and the world
    it is parsed in named. *)
Lemma Run_unfold c (prog : string) (rest : list string) σ :
  Commander_Run c (prog :: rest) σ
  = (let c := setName prog c in
     let '(err, fset, σ) :=
       flag.Parse rest (globalSet c σ).1 (globalSet c σ).2 in
     match err with
     | Some e => (Returned (Some e), c, σ)
     | None =>
         if flag.NArg fset =? 0
         then (Returned (Some ErrHelp), c, flag.usage fset σ)
         else
           match Commander_get c (flag.Arg 0 fset) with
           | None =>
               let σ := say c ("Error: No such command: "
                               +:+ Quote (flag.Arg 0 fset) +:+ nl +:+ nl) σ in
               (Returned (Some ErrHelp), c, flag.usage fset σ)
           | Some cmd =>
               let '(err, sub, σ) :=
                 flag.Parse (drop 1 (flag.Args fset))
                   (subSet c cmd σ).1 (subSet c cmd σ).2 in
               match err with
               | Some e => (Returned (Some e), c, σ)
               | None =>
                   let '(r, σ) := Command_Run c cmd (flag.Args sub) σ in
                   (r, c, σ)
               end
           end
     end).
Proof.
  unfold Commander_Run. cbv zeta.
  destruct (globalSet (setName prog c) σ) as [fs σg]. cbn [fst snd].
  destruct (flag.Parse rest fs σg) as [[[e|] f] σ1]; [reflexivity|].
  destruct (flag.NArg f =? 0); [reflexivity|].
  destruct (Commander_get (setName prog c) (flag.Arg 0 f)) as [cmd|];
    [|reflexivity].
  destruct (subSet (setName prog c) cmd σ1) as [sub σs]. reflexivity.
Qed.

(** The global flags do not parse. *)
Lemma Run_global_error c (prog : string) (rest : list string) σ e f σ1 :
  flag.Parse rest (globalSet (setName prog c) σ).1
    (globalSet (setName prog c) σ).2 = (Some e, f, σ1) ->
  Commander_Run c (prog :: rest) σ = (Returned (Some e), setName prog c, σ1).
Proof. intros Hp. rewrite Run_unfold. cbv zeta. rewrite Hp. reflexivity. Qed.

(** Nothing is left after the global flags. *)
Lemma Run_no_command c (prog : string) (rest : list string) σ f σ1 :
  flag.Parse rest (globalSet (setName prog c) σ).1
    (globalSet (setName prog c) σ).2 = (None, f, σ1) ->
  flag.args f = [] ->
  Commander_Run c (prog :: rest) σ
  = (Returned (Some ErrHelp), setName prog c,
     emit (summaryText (setName prog c) (client σ1))
       (afterGlobal (setName prog c) σ1)).
Proof.
  intros Hp Ha. rewrite Run_unfold. cbv zeta. rewrite Hp.
  apply Parse_inv in Hp as (Hs & _).
  unfold flag.NArg. rewrite Ha. simpl.
  by rewrite (usage_globalSet _ _ _ _ Hs).
Qed.

(** The first argument left is not the name of a command. *)
Lemma Run_unknown c (prog : string) (rest : list string) σ f σ1
    (a : string) (more : list string) :
  flag.Parse rest (globalSet (setName prog c) σ).1
    (globalSet (setName prog c) σ).2 = (None, f, σ1) ->
  flag.args f = a :: more ->
  Commander_get c a = None ->
  Commander_Run c (prog :: rest) σ
  = (Returned (Some ErrHelp), setName prog c,
     emit (noSuchCommand c a :: summaryText (setName prog c) (client σ1))
       (afterGlobal (setName prog c) σ1)).
Proof.
  intros Hp Ha Hg. rewrite Run_unfold. cbv zeta. rewrite Hp.
  apply Parse_inv in Hp as (Hs & _).
  unfold flag.NArg, flag.Arg. rewrite Ha. simpl.
  rewrite get_setName, Hg.
  rewrite (usage_globalSet _ _ _ _ Hs), say_emit.
  by rewrite emit_client, afterGlobal_emit, emit_emit.
Qed.

(** The flags of the command do not parse. *)
Lemma Run_sub_error c (prog : string) (rest : list string) σ f σ1
    (a : string) (more : list string) cmd e f2 σ2 :
  flag.Parse rest (globalSet (setName prog c) σ).1
    (globalSet (setName prog c) σ).2 = (None, f, σ1) ->
  flag.args f = a :: more ->
  Commander_get c a = Some cmd ->
  flag.Parse more (subSet (setName prog c) cmd σ1).1
    (subSet (setName prog c) cmd σ1).2 = (Some e, f2, σ2) ->
  Commander_Run c (prog :: rest) σ = (Returned (Some e), setName prog c, σ2).
Proof.
  intros Hp Ha Hg Hp2. rewrite Run_unfold. cbv zeta. rewrite Hp.
  unfold flag.NArg, flag.Arg, flag.Args. rewrite Ha. simpl.
  rewrite get_setName, Hg. unfold drop. rewrite Hp2. reflexivity.
Qed.

(** Both parses succeed: the command runs. *)
Lemma Run_execute c (prog : string) (rest : list string) σ f σ1
    (a : string) (more : list string) cmd f2 σ2 :
  flag.Parse rest (globalSet (setName prog c) σ).1
    (globalSet (setName prog c) σ).2 = (None, f, σ1) ->
  flag.args f = a :: more ->
  Commander_get c a = Some cmd ->
  flag.Parse more (subSet (setName prog c) cmd σ1).1
    (subSet (setName prog c) cmd σ1).2 = (None, f2, σ2) ->
  Commander_Run c (prog :: rest) σ
  = (let '(r, σ3) := Command_Run (setName prog c) cmd (flag.args f2) σ2 in
     (r, setName prog c, σ3)).
Proof.
  intros Hp Ha Hg Hp2. rewrite Run_unfold. cbv zeta. rewrite Hp.
  unfold flag.NArg, flag.Arg, flag.Args. rewrite Ha. simpl.
  rewrite get_setName, Hg. unfold drop. rewrite Hp2. reflexivity.
Qed.

(** [Parse] of no arguments. *)
Lemma Parse_nil (f : @flag.FlagSet St) σ :
  flag.Parse [] f σ = (None, flag.setArgs [] f, σ).
Proof. unfold flag.Parse. rewrite parseLoop_unfold. reflexivity. Qed.

End RunFacts.

(** ** More on the registry: what a second registration of a name does *)
Section RegistryTwice.
Context {St : Type}.
Implicit Types (c : @Commander St) (cmd : @Command St) (l : list (@Command St)).

Lemma get_in_app l1 l2 (n : string) :
  get_in (l1 ++ l2) n
  = match get_in l1 n with
    | Some x => Some x
    | None => get_in l2 n
    end.
Proof.
  induction l1 as [|x l1 IH]; simpl; [reflexivity|].
  destruct (String.eqb (Command_Name x) n); [reflexivity | exact IH].
Qed.

(** [Register] on a sorted registry always adds an entry. *)
Lemma Register_grows c cmd :
  sortedByName (commands c) ->
  length (commands (Commander_Register c cmd)) = S (length (commands c)).
Proof.
  intros Hs. rewrite (Register_inserts c cmd Hs). simpl.
  assert (length (take (slot cmd (commands c)) (commands c))
          + length (drop (slot cmd (commands c)) (commands c))
          = length (commands c)) as Hlen
    by (rewrite <- length_app, take_drop; reflexivity).
  rewrite length_app. simpl. lia.
Qed.

(** What [get] finds for a name stays what it was: the first command
    registered under a name is the one that is found. *)
Lemma Register_keeps_first c cmd (n : string) old :
  sortedByName (commands c) ->
  Commander_get c n = Some old ->
  Commander_get (Commander_Register c cmd) n = Some old.
Proof.
  intros Hs Hg. rewrite (Register_inserts c cmd Hs).
  destruct (slot_spec cmd (commands c) Hs) as (Hle & Hb & Ha).
  unfold Commander_get in *. simpl.
  set (i := slot cmd (commands c)) in *.
  rewrite <- (take_drop i (commands c)), get_in_app in Hg.
  rewrite get_in_app.
  destruct (get_in (take i (commands c)) n) as [x|]; [assumption|].
  simpl.
  destruct (String.eqb_spec (Command_Name cmd) n) as [Hn|Hn]; [|assumption].
  exfalso.
  pose proof (get_in_name _ _ _ Hg) as Hname.
  apply get_in_elem, list_elem_of_lookup in Hg as (k & Hk).
  rewrite lookup_drop in Hk.
  specialize (Ha (i + k) old ltac:(lia) Hk).
  rewrite Hname, <- Hn, ltb_irrefl in Ha. discriminate.
Qed.

End RegistryTwice.

(** * The claims *)

(** C1 (the code departs from it). Registering a second command under a
    name that is taken does not replace the first: on the registry of one
    command [build], registering another command [build] leaves both in
    the registry, the first one first, and [get] still finds the first. *)
Theorem C1_second_registration_does_not_replace :
  let c := registerAll (newCommander None "" None)
             [Example.oldCmd; Example.newCmd] in
  commands c = [Example.oldCmd; Example.newCmd]
  /\ Commander_get c "build" = Some Example.oldCmd.
Proof. split; reflexivity. Qed.

Section Claims.
Context {St : Type} `{Platform}.
Implicit Types (c : @Commander St) (cmd : @Command St) (σ : World St).

(** C2. After any registrations, in any order and with any names, made
    on a new Commander, the commands are in the lexicographic order of
    their names, and the summary of the help lists them in that order:
    after its head, its writes are the lines of the commands as the
    registry has them. *)
Theorem C2_registry_sorted_by_name (o : option Writer) (h : string)
    (fl : option (@flag.Declarator St)) (cmds : list (@Command St)) σ :
  let c := registerAll (newCommander o h fl) cmds in
  StronglySorted String.le (map Command_Name (commands c))
  /\ out (helpCmd_Run c [] σ).2
     = out σ
       ++ ((Commander_output c, usageLine c) :: helpBlock c
           ++ globalBlock c (client σ)
           ++ [(Commander_output c, nl +:+ "Commands:" +:+ nl)])
       ++ map (fun cmd => (Commander_output c, commandLine cmd)) (commands c).
Proof.
  intros c. split.
  - apply (registerAll_sorted (newCommander o h fl) cmds). constructor.
  - change (helpCmd_Run c [] σ) with (helpCmd_summary c σ).
    rewrite helpCmd_summary_eq. cbn [snd]. rewrite emit_out, afterGlobal_out.
    f_equal. unfold summaryText, commandsBlock, commandLines. simpl.
    rewrite <- !app_assoc. reflexivity.
Qed.



(** C3, in general: with nothing after the name of the program, [Run]
    runs the declarator of the global flags, writes the summary (which
    runs the declarator once more), returns [ErrHelp] and runs no
    command. The summary is [summaryText]: its lines for the global flags
    go to [os.Stderr], whatever [Output] is. *)
Lemma Run_only_name c (prog : string) σ :
  Commander_Run c [prog] σ
  = (Returned (Some ErrHelp), setName prog c,
     emit (summaryText (setName prog c)
             (client (afterGlobal (setName prog c) σ)))
       (afterGlobal (setName prog c) (afterGlobal (setName prog c) σ))).
Proof.
  rewrite (Run_no_command c prog [] σ _ _ (Parse_nil _ _) eq_refl).
  by rewrite globalSet_world.
Qed.

(** C4. For a name [a] that [get] does not find: when [a] is the first
    argument that the global flags leave, [Run] writes the notice
    [Error: No such command: "a"] to the output of the Commander, then
    the summary, and returns [ErrHelp], the parse of the global flags
    having written nothing; and the help command called with [a] does
    the same. The summary runs the declarator of the global flags, which
    is all that happens to the state of the client. *)
Theorem C4_no_such_command c (a : string) :
  Commander_get c a = None ->
  (forall (prog : string) (rest more : list string) σ f σ1,
     flag.Parse rest (globalSet (setName prog c) σ).1
       (globalSet (setName prog c) σ).2 = (None, f, σ1) ->
     flag.args f = a :: more ->
     out σ1 = out σ
     /\ Commander_Run c (prog :: rest) σ
        = (Returned (Some ErrHelp), setName prog c,
           emit ((Commander_output c,
                  "Error: No such command: " +:+ Quote a +:+ nl +:+ nl)
                 :: summaryText (setName prog c) (client σ1))
             (afterGlobal (setName prog c) σ1)))
  /\ (forall (more : list string) σ,
        helpCmd_Run c (a :: more) σ
        = (Some ErrHelp,
           emit ((Commander_output c,
                  "Error: No such command: " +:+ Quote a +:+ nl +:+ nl)
                 :: summaryText c (client σ))
             (afterGlobal c σ))).
Proof.
  intros Hg. split.
  - intros prog rest more σ f σ1 Hp Ha. split.
    + apply Parse_inv in Hp as (_ & Ho).
      by rewrite Ho, globalSet_world, afterGlobal_out.
    + apply (Run_unknown c prog rest σ f σ1 a more Hp Ha Hg).
  - intros more σ. apply (helpCmd_unknown_eq c a more σ Hg).
Qed.

(** C5. When both parses succeed and [get] finds the command, [Run]
    ends as the [Run] of the command ends, called with the arguments
    that its flags leave: the same error value or [nil] (or the same
    panic), and the world as the command leaves it. The global flags are
    parsed after the declarator of the global flags has run, the flags of
    the command after its [Flags] has run. *)
Theorem C5_result_of_the_command_unchanged c (prog : string)
    (rest more : list string) σ f σ1 (a : string) cmd f2 σ2 r σ3 :
  flag.Parse rest (globalSet (setName prog c) σ).1
    (globalSet (setName prog c) σ).2 = (None, f, σ1) ->
  flag.args f = a :: more ->
  Commander_get c a = Some cmd ->
  flag.Parse more (subSet (setName prog c) cmd σ1).1
    (subSet (setName prog c) cmd σ1).2 = (None, f2, σ2) ->
  Command_Run (setName prog c) cmd (flag.args f2) σ2 = (r, σ3) ->
  Commander_Run c (prog :: rest) σ = (r, setName prog c, σ3).
Proof.
  intros Hp Ha Hg Hp2 Hr.
  rewrite (Run_execute c prog rest σ f σ1 a more cmd f2 σ2 Hp Ha Hg Hp2).
  rewrite Hr. reflexivity.
Qed.

(** C8. The summary begins with the line
    [Usage: <name> <subcommand> [subcommand arguments]] when no
    declarator of global flags is set, and then has no block of global
    options; it begins with
    [Usage: <name> [global options] <subcommand> [subcommand arguments]]
    when one is set, and then has the heading [Global Options:] and the
    defaults of the flags that the declarator defines, between the help
    text and the commands. *)
Theorem C8_usage_line_and_global_options c σ :
  helpCmd_Run c [] σ
  = (None,
     emit
       match Flags c with
       | None =>
           (Commander_output c,
            "Usage: " +:+ displayName c
            +:+ " <subcommand> [subcommand arguments]" +:+ nl)
           :: helpBlock c ++ commandsBlock c
       | Some d =>
           (Commander_output c,
            "Usage: " +:+ displayName c +:+ " [global options]"
            +:+ " <subcommand> [subcommand arguments]" +:+ nl)
           :: helpBlock c
           ++ (Commander_output c, nl +:+ "Global Options:" +:+ nl)
              :: map (fun s => (Stderr, s))
                   (flag.defaultsText (d (client σ)).1)
           ++ commandsBlock c
       end
       match Flags c with
       | None => σ
       | Some d => mkWorld (out σ) (d (client σ)).2
       end).
Proof.
  change (helpCmd_Run c [] σ) with (helpCmd_summary c σ).
  rewrite helpCmd_summary_eq.
  unfold summaryText, usageLine, globalBlock, afterGlobal.
  destruct (Flags c) as [d|]; reflexivity.
Qed.


(** C10. [Run] reads [args[0]] first: on the empty list it panics on the
    index and returns nothing; on a list that is not empty the Commander
    holds [args[0]] as its name when [Run] ends, and [Run] panics only
    when the [Run] of a registered command of the client does. *)
Theorem C10_first_argument_is_read c σ :
  Commander_Run c [] σ
  = (Panicked "runtime error: index out of range [0] with length 0", c, σ)
  /\ (forall (a : string) (rest : list string),
        name (Commander_Run c (a :: rest) σ).1.2 = a)
  /\ (forall (a : string) (rest : list string) (msg : string) c' σ',
        Commander_Run c (a :: rest) σ = (Panicked msg, c', σ') ->
        exists u (args' : list string) σ0,
          clientCmd u ∈ commands c
          /\ clientRun u args' σ0 = (Panicked msg, σ')).
Proof.
  split; [reflexivity|]. split.
  - intros a rest. rewrite Run_unfold. cbv zeta.
    repeat (case_match; simpl); reflexivity.
  - intros a rest msg c' σ' Hr. rewrite Run_unfold in Hr. cbv zeta in Hr.
    destruct (flag.Parse rest (globalSet (setName a c) σ).1
                (globalSet (setName a c) σ).2) as [[[e|] f] σ1];
      [discriminate|].
    destruct (flag.NArg f =? 0); [discriminate|].
    destruct (Commander_get (setName a c) (flag.Arg 0 f)) as [cmd|] eqn:Hg;
      [|discriminate].
    destruct (flag.Parse (drop 1 (flag.Args f))
                (subSet (setName a c) cmd σ1).1 (subSet (setName a c) cmd σ1).2)
      as [[[e|] f2] σ2]; [discriminate|].
    destruct cmd as [|u]; simpl in Hr.
    + destruct (helpCmd_Run (setName a c) (flag.Args f2) σ2). discriminate.
    + destruct (clientRun u (flag.Args f2) σ2) as [r σ3] eqn:Hu.
      inversion Hr; subst.
      exists u, (flag.Args f2), σ2. split; [|assumption].
      apply get_in_elem in Hg. exact Hg.
Qed.

(** A request for help as the first argument: [Parse] calls the usage and
    returns [ErrHelp]. *)
Lemma Parse_help (f : @flag.FlagSet St) (tok : string) (more : list string) σ :
  helpRequest (flag.formal f) tok ->
  flag.Parse (tok :: more) f σ
  = (Some ErrHelp, flag.setArgs more f, flag.usage f σ).
Proof.
  intros Hh. unfold flag.Parse. rewrite parseLoop_unfold.
  destruct Hh as [[[-> | ->] Hn] | [[-> | ->] Hn]];
    unfold flag.parseOne; cbn; unfold flag.parseFlag; cbn;
    rewrite Hn; reflexivity.
Qed.

(** C7, as the code has it. For a command that [get] finds under its
    name and whose help text is not empty: when the global flags leave
    the name of the command and then a request for help ([-h], [--h],
    [-help] or [--help], which the command does not define as a flag),
    [Run] writes the trimmed help text on a line and, if and only if the
    command defines a flag, the line [Options:] after an empty line and
    the defaults of the flags of the command, all to the output of the
    Commander; it returns [ErrHelp]. The [Flags] of the command has run
    twice, once for the parse and once for the help, and that is all
    that happened to the world the global flags left, but for these
    writes: the [Run] of the command has not been called. *)
Theorem C7_help_flag_after_command c (prog : string) (rest more : list string)
    cmd (tok : string) σ f σ1 :
  flag.Parse rest (globalSet (setName prog c) σ).1
    (globalSet (setName prog c) σ).2 = (None, f, σ1) ->
  flag.args f = Command_Name cmd :: tok :: more ->
  Commander_get c (Command_Name cmd) = Some cmd ->
  Command_Help cmd <> "" ->
  helpRequest (declared cmd (client σ1)) tok ->
  out σ1 = out σ
  /\ Commander_Run c (prog :: rest) σ
     = (Returned (Some ErrHelp), setName prog c,
        emit ((Commander_output c, TrimSpace (Command_Help cmd) +:+ nl)
              :: (if decide (declared cmd (client (afterFlags cmd σ1)) = ∅)
                  then []
                  else [(Commander_output c, nl +:+ "Options:" +:+ nl);
                        (Commander_output c,
                         foldr String.app ""
                           (flag.defaultsText
                              (declared cmd (client (afterFlags cmd σ1)))))]))
             (afterFlags cmd (afterFlags cmd σ1))).
Proof.
  intros Hp Ha Hg Hhelp Hreq. split.
  { apply Parse_inv in Hp as (_ & Ho).
    by rewrite Ho, globalSet_world, afterGlobal_out. }
  assert (flag.Parse (tok :: more) (subSet (setName prog c) cmd σ1).1
            (subSet (setName prog c) cmd σ1).2
          = (Some ErrHelp,
             flag.setArgs more (subSet (setName prog c) cmd σ1).1,
             flag.usage (subSet (setName prog c) cmd σ1).1
               (subSet (setName prog c) cmd σ1).2)) as Hp2.
  { apply Parse_help. by rewrite formal_subSet. }
  rewrite (Run_sub_error c prog rest σ f σ1 _ _ cmd _ _ _ Hp Ha Hg Hp2).
  rewrite (usage_subSet (setName prog c) cmd σ1 _ _ Hg (sameSet_refl _)).
  rewrite subSet_world.
  do 2 f_equal. unfold detailText.
  destruct (String.eqb_spec (Command_Help cmd) "") as [He|_]; [contradiction|].
  reflexivity.
Qed.

(** C6, in general: an error of a parse is returned as it is, after the
    usage was written. For the global flags the usage is the summary, for
    the flags of a command it is the help of the command. The error is
    [ErrHelp] for a request for help, and otherwise an error of the
    parser, whose message goes to [os.Stderr] before the usage. The
    world [σ0] is the one in which the usage was called: it has the
    writes of the start and the state of the client that the declarators
    and the flags set before the failure left. *)
Lemma Run_parse_failure c (prog : string) (rest : list string) σ :
  (forall e f σ1,
     flag.Parse rest (globalSet (setName prog c) σ).1
       (globalSet (setName prog c) σ).2 = (Some e, f, σ1) ->
     Commander_Run c (prog :: rest) σ = (Returned (Some e), setName prog c, σ1)
     /\ exists σ0, out σ0 = out σ
          /\ ((e = ErrHelp
               /\ σ1 = emit (summaryText (setName prog c) (client σ0))
                         (afterGlobal (setName prog c) σ0))
              \/ exists msg, e = parseError msg
                   /\ σ1 = emit ((Stderr, msg +:+ nl)
                                 :: summaryText (setName prog c) (client σ0))
                             (afterGlobal (setName prog c) σ0)))
  /\ (forall f σ1 (a : string) (more : list string) cmd e f2 σ2,
        flag.Parse rest (globalSet (setName prog c) σ).1
          (globalSet (setName prog c) σ).2 = (None, f, σ1) ->
        flag.args f = a :: more ->
        Commander_get c a = Some cmd ->
        flag.Parse more (subSet (setName prog c) cmd σ1).1
          (subSet (setName prog c) cmd σ1).2 = (Some e, f2, σ2) ->
        Commander_Run c (prog :: rest) σ = (Returned (Some e), setName prog c, σ2)
        /\ exists σ0, out σ0 = out σ
             /\ ((e = ErrHelp
                  /\ σ2 = emit (detailText c cmd (client σ0))
                            (afterFlags cmd σ0))
                 \/ exists msg, e = parseError msg
                      /\ σ2 = emit ((Stderr, msg +:+ nl)
                                    :: detailText c cmd (client σ0))
                                (afterFlags cmd σ0))).
Proof.
  split.
  - intros e f σ1 Hp. split; [by eapply Run_global_error|].
    apply Parse_inv in Hp as (Hs & σ0 & Ho & Hr). exists σ0.
    split; [by rewrite Ho, globalSet_world, afterGlobal_out|].
    destruct Hr as [[-> ->]|(msg & -> & ->)]; [left | right; exists msg];
      (split; [reflexivity|]).
    + apply (usage_globalSet (setName prog c) σ), sameSet_refl.
    + rewrite (usage_globalSet (setName prog c) σ) by apply sameSet_refl.
      rewrite (Output_globalSet (setName prog c) σ) by apply sameSet_refl.
      by rewrite Fprintf_emit, emit_client, afterGlobal_emit, emit_emit.
  - intros f σ1 a more cmd e f2 σ2 Hp Ha Hg Hp2.
    split; [by eapply Run_sub_error|].
    apply Parse_inv in Hp as (_ & Ho1).
    apply Parse_inv in Hp2 as (Hs & σ0 & Ho & Hr).
    exists σ0. split.
    { by rewrite Ho, subSet_world, afterFlags_out, Ho1, globalSet_world,
        afterGlobal_out. }
    assert (Commander_get (setName prog c) (Command_Name cmd) = Some cmd) as Hg'.
    { rewrite (get_in_name _ _ _ Hg). exact Hg. }
    destruct Hr as [[-> ->]|(msg & -> & ->)]; [left | right; exists msg];
      (split; [reflexivity|]).
    + apply (usage_subSet (setName prog c) cmd σ1);
        [assumption | apply sameSet_refl].
    + rewrite (usage_subSet (setName prog c) cmd σ1)
        by (assumption || apply sameSet_refl).
      rewrite (Output_subSet (setName prog c) cmd σ1) by apply sameSet_refl.
      by rewrite Fprintf_emit, emit_client, afterFlags_emit, emit_emit.
Qed.

End Claims.

(** ** The claims on the commands of the tests *)

(** C3 (the code departs from it). With the output set to a buffer and a
    global flag [-v] defined, [Run] on the name of the program alone
    returns [ErrHelp], but the summary does not all go to the output: the
    line of the flag under [Global Options:] goes to [os.Stderr], and the
    buffer holds the heading with nothing under it. *)
Theorem C3_flag_defaults_miss_the_output :
  let '(r, _, σ) := Commander_Run (H := Example.asciiPlatform)
                      Example.globalCommander ["prog"] Example.world0 in
  r = Returned (Some ErrHelp)
  /\ written Example.cout (out σ)
     = "Usage: prog [global options] <subcommand> [subcommand arguments]" +:+ nl
       +:+ nl +:+ "Global Options:" +:+ nl
       +:+ nl +:+ "Commands:" +:+ nl
       +:+ tab +:+ "test" +:+ tab +:+ tab +:+ "a simple test" +:+ nl
  /\ written Stderr (out σ) = "  -v" +:+ tab +:+ "be verbose" +:+ nl.
Proof. vm_compute. repeat split. Qed.

(** C6 (the code departs from it). With the output set to a buffer and a
    global flag [-v] defined, [Run] on a global flag that is not defined
    returns the error of the parser, which is not [ErrHelp]; the message
    and the line of the flag [-v] of the usage go to [os.Stderr], the
    rest of the usage goes to the buffer. *)
Theorem C6_usage_of_a_bad_flag_misses_the_output :
  let '(r, _, σ) := Commander_Run (H := Example.asciiPlatform)
                      Example.globalCommander ["prog"; "-x"] Example.world0 in
  r = Returned (Some (parseError "flag provided but not defined: -x"))
  /\ r <> Returned (Some ErrHelp)
  /\ written Example.cout (out σ)
     = "Usage: prog [global options] <subcommand> [subcommand arguments]" +:+ nl
       +:+ nl +:+ "Global Options:" +:+ nl
       +:+ nl +:+ "Commands:" +:+ nl
       +:+ tab +:+ "test" +:+ tab +:+ tab +:+ "a simple test" +:+ nl
  /\ written Stderr (out σ)
     = "flag provided but not defined: -x" +:+ nl
       +:+ "  -v" +:+ tab +:+ "be verbose" +:+ nl.
Proof. vm_compute. repeat split. discriminate. Qed.

(** The two cases of [TestSimpleCmd]: [--help] alone, and [--help] after
    the command [test]. *)
Example test_Simple_Help :
  Example.runTest ["subtest"; "--help"]
  = (Returned (Some ErrHelp),
     "Usage: subtest <subcommand> [subcommand arguments]" +:+ nl
     +:+ nl +:+ "Even more help text." +:+ nl
     +:+ nl +:+ "Commands:" +:+ nl
     +:+ tab +:+ "help" +:+ tab +:+ tab +:+ "show help for commands" +:+ nl
     +:+ tab +:+ "test" +:+ tab +:+ tab +:+ "a simple test" +:+ nl,
     "").
Proof. vm_compute. reflexivity. Qed.

Example test_Subcommand_Help :
  Example.runTest ["subtest"; "test"; "--help"]
  = (Returned (Some ErrHelp),
     "This is just a simple test." +:+ nl
     +:+ "No, really. That's it." +:+ nl
     +:+ "Probably." +:+ nl
     +:+ nl +:+ "Options:" +:+ nl
     +:+ "  -flag string" +:+ nl
     +:+ "    " +:+ tab +:+ "a flag test (default " +:+ Example.dq +:+ "test"
     +:+ Example.dq +:+ ")" +:+ nl,
     "").
Proof. vm_compute. reflexivity. Qed.

(** C4 on the Commander of the tests: [bogus] is not registered. *)
Lemma C4_no_such_command_witness :
  Commander_get Example.testCommander "bogus" = None
  /\ Commander_Run (H := Example.asciiPlatform) Example.testCommander
       ["subtest"; "bogus"] Example.world0
     = (Returned (Some ErrHelp), setName "subtest" Example.testCommander,
        emit ((Example.cout,
               "Error: No such command: " +:+ Example.asciiQuote "bogus"
               +:+ nl +:+ nl)
              :: summaryText (H := Example.asciiPlatform)
                   (setName "subtest" Example.testCommander)
                   (client Example.world0))
          Example.world0)
  /\ helpCmd_Run (H := Example.asciiPlatform) Example.testCommander
       ["bogus"] Example.world0
     = (Some ErrHelp,
        emit ((Example.cout,
               "Error: No such command: " +:+ Example.asciiQuote "bogus"
               +:+ nl +:+ nl)
              :: summaryText (H := Example.asciiPlatform) Example.testCommander
                   (client Example.world0))
          Example.world0).
Proof.
  destruct (C4_no_such_command (H := Example.asciiPlatform)
              Example.testCommander "bogus" eq_refl) as [Hrun Hhelp].
  split; [reflexivity|]. split.
  - edestruct (Hrun "subtest" ["bogus"] [] Example.world0) as [_ Hr];
      [vm_compute; reflexivity | reflexivity | exact Hr].
  - apply Hhelp.
Defined.

(** C5 on the Commander of the tests: the command [test] runs with the
    argument that its flag leaves, and its [nil] is what [Run] returns;
    the field [flag] holds the value of the command line. *)
Lemma C5_result_of_the_command_unchanged_witness :
  Commander_Run (H := Example.asciiPlatform) Example.testCommander
    ["subtest"; "test"; "-flag"; "x"; "arg0"] Example.world0
  = (Returned None, setName "subtest" Example.testCommander,
     mkWorld [(Example.testout, Example.asciiQuote "arg0")]
       (Example.mkVars false "x")).
Proof.
  eapply (C5_result_of_the_command_unchanged (H := Example.asciiPlatform)
            Example.testCommander "subtest" ["test"; "-flag"; "x"; "arg0"]
            ["-flag"; "x"; "arg0"] Example.world0 _ _ "test" Example.testCmd).
  - vm_compute; reflexivity.
  - reflexivity.
  - reflexivity.
  - vm_compute; reflexivity.
  - vm_compute; reflexivity.
Defined.

(** C7 (it fails as stated), on two Commanders. A registered command
    whose name is [-x]: [Run] on that name and [--help] takes the name
    for a global flag that is not defined, returns the error of the
    parser and writes the summary, not the help of the command. And two
    commands registered under the name [build], which [Register] both
    keeps: [Run] on the name of the second and [--help] writes the help
    of the first. *)
Lemma C7_help_flag_after_command_counterexample :
  (Example.dashCmd ∈ commands Example.dashCommander
   /\ Command_Help Example.dashCmd = "Help of -x."
   /\ let '(r, _, σ) :=
        Commander_Run (H := Example.asciiPlatform) Example.dashCommander
          ["prog"; Command_Name Example.dashCmd; "--help"] Example.world0 in
      r = Returned (Some (parseError "flag provided but not defined: -x"))
      /\ r <> Returned (Some ErrHelp)
      /\ written Stderr (out σ) = "flag provided but not defined: -x" +:+ nl
      /\ written Example.cout (out σ)
         = "Usage: prog <subcommand> [subcommand arguments]" +:+ nl
           +:+ nl +:+ "Commands:" +:+ nl
           +:+ tab +:+ "-x" +:+ tab +:+ tab +:+ "a name like a flag" +:+ nl)
  /\ (Example.secondCmd ∈ commands Example.twiceCommander
      /\ Command_Help Example.secondCmd = "Help of the second."
      /\ let '(r, _, σ) :=
           Commander_Run (H := Example.asciiPlatform) Example.twiceCommander
             ["prog"; Command_Name Example.secondCmd; "--help"]
             Example.world0 in
         r = Returned (Some ErrHelp)
         /\ out σ = [(Example.cout, "Help of the first." +:+ nl)]
         /\ written Example.cout (out σ)
            <> Example.asciiTrimSpace (Command_Help Example.secondCmd) +:+ nl).
Proof.
  split.
  - split; [apply list_elem_of_here|]. split; [reflexivity|].
    vm_compute. repeat split. discriminate.
  - split; [apply list_elem_of_further, list_elem_of_here|].
    split; [reflexivity|].
    vm_compute. repeat split. discriminate.
Qed.

(** C7 on the Commander of the tests: [--help] after the command [test].
    The field [flag] of the command holds the default that its [Flags]
    stores. *)
Lemma C7_help_flag_after_command_witness :
  helpRequest (declared Example.testCmd (client Example.world0)) "--help"
  /\ Commander_Run (H := Example.asciiPlatform) Example.testCommander
       ["subtest"; "test"; "--help"] Example.world0
     = (Returned (Some ErrHelp), setName "subtest" Example.testCommander,
        mkWorld
          [(Example.cout,
            "This is just a simple test." +:+ nl
            +:+ "No, really. That's it." +:+ nl
            +:+ "Probably." +:+ nl);
           (Example.cout, nl +:+ "Options:" +:+ nl);
           (Example.cout,
            "  -flag string" +:+ nl
            +:+ "    " +:+ tab +:+ "a flag test (default " +:+ Example.dq
            +:+ "test" +:+ Example.dq +:+ ")" +:+ nl)]
          (Example.mkVars false "test")).
Proof.
  assert (helpRequest (declared Example.testCmd (client Example.world0))
            "--help") as Hreq.
  { right. split; [right; reflexivity | reflexivity]. }
  split; [exact Hreq|].
  edestruct (C7_help_flag_after_command (H := Example.asciiPlatform)
               Example.testCommander "subtest" ["test"; "--help"] []
               Example.testCmd "--help" Example.world0) as [_ Hr].
  - vm_compute; reflexivity.
  - reflexivity.
  - reflexivity.
  - discriminate.
  - exact Hreq.
  - rewrite Hr. vm_compute. reflexivity.
Defined.


(** * Further properties of the code *)

(** ** Register and get as insert and lookup *)
Section RegistryMore.
Context {St : Type}.
Implicit Types (c : @Commander St) (cmd : @Command St)
  (l cmds : list (@Command St)) (n : string).

Lemma Register_permutation c cmd :
  sortedByName (commands c) ->
  commands (Commander_Register c cmd) ≡ₚ cmd :: commands c.
Proof.
  intros Hs. rewrite (Register_inserts c cmd Hs). simpl.
  rewrite <- Permutation_middle. by rewrite take_drop.
Qed.

Lemma registerAll_permutation c cmds :
  sortedByName (commands c) ->
  commands (registerAll c cmds) ≡ₚ commands c ++ cmds.
Proof.
  revert c. induction cmds as [|cmd cmds IH]; intros c Hs; simpl.
  - by rewrite app_nil_r.
  - rewrite (IH _ (Register_sorted c cmd Hs)), (Register_permutation c cmd Hs).
    simpl. by rewrite Permutation_middle.
Qed.

Lemma get_in_None l n :
  get_in l n = None <-> forall cmd, cmd ∈ l -> Command_Name cmd <> n.
Proof.
  induction l as [|x l IH]; simpl.
  - split; [intros _ cmd Hin; by apply elem_of_nil in Hin | reflexivity].
  - destruct (String.eqb_spec (Command_Name x) n) as [Hn|Hn].
    + split; [discriminate|]. intros Hall. exfalso.
      apply (Hall x); [by left | assumption].
    + rewrite IH. split.
      * intros Hall cmd [->|Hin]%elem_of_cons; [assumption | by apply Hall].
      * intros Hall cmd Hin. apply Hall. by right.
Qed.

Lemma get_Register c cmd n :
  sortedByName (commands c) ->
  Commander_get (Commander_Register c cmd) n
  = match Commander_get c n with
    | Some x => Some x
    | None => if String.eqb (Command_Name cmd) n then Some cmd else None
    end.
Proof.
  intros Hs. destruct (Commander_get c n) as [old|] eqn:Hg.
  { by apply Register_keeps_first. }
  rewrite (Register_inserts c cmd Hs). unfold Commander_get in *. simpl.
  set (i := slot cmd (commands c)) in *.
  rewrite <- (take_drop i (commands c)), get_in_app in Hg.
  rewrite get_in_app.
  destruct (get_in (take i (commands c)) n); [discriminate|].
  simpl. rewrite Hg. reflexivity.
Qed.

Lemma get_registerAll c cmds n :
  sortedByName (commands c) ->
  Commander_get (registerAll c cmds) n
  = match Commander_get c n with
    | Some x => Some x
    | None => get_in cmds n
    end.
Proof.
  revert c. induction cmds as [|cmd cmds IH]; intros c Hs; simpl.
  - by destruct (Commander_get c n).
  - rewrite (IH _ (Register_sorted c cmd Hs)), (get_Register c cmd n Hs).
    destruct (Commander_get c n); [reflexivity|].
    destruct (String.eqb (Command_Name cmd) n); reflexivity.
Qed.

Lemma sortedByName_commands l :
  sortedByName l ->
  StronglySorted (fun a b => String.le (Command_Name a) (Command_Name b)) l.
Proof.
  unfold sortedByName. induction l as [|x l IH]; simpl; intros Hs.
  - constructor.
  - apply StronglySorted_cons in Hs as [Hall Hs].
    constructor; [by apply IH|].
    apply Forall_forall. intros y Hy. rewrite Forall_forall in Hall.
    apply Hall. apply list_elem_of_fmap. by exists y.
Qed.

Lemma NoDup_names_inj l (x y : @Command St) :
  NoDup (map Command_Name l) -> x ∈ l -> y ∈ l ->
  Command_Name x = Command_Name y -> x = y.
Proof.
  induction l as [|z l IH]; simpl; intros Hnd Hx Hy Hn.
  - by apply elem_of_nil in Hx.
  - apply NoDup_cons in Hnd as [Hz Hnd].
    apply elem_of_cons in Hx as [->|Hx]; apply elem_of_cons in Hy as [->|Hy].
    + reflexivity.
    + exfalso. apply Hz. rewrite Hn. apply list_elem_of_fmap. by exists y.
    + exfalso. apply Hz. rewrite <- Hn. apply list_elem_of_fmap. by exists x.
    + by apply IH.
Qed.

(** X1. Every call of [Register] adds an entry, whatever the name: after
    any registrations on a new Commander the registry has as many entries
    as there were calls, and holds exactly the commands registered, each
    as often as it was registered. *)
Theorem X1_Register_always_adds (o : option Writer) (h : string)
    (fl : option (@flag.Declarator St)) cmds :
  length (commands (registerAll (newCommander o h fl) cmds)) = length cmds
  /\ commands (registerAll (newCommander o h fl) cmds) ≡ₚ cmds.
Proof.
  assert (commands (registerAll (newCommander o h fl) cmds) ≡ₚ cmds) as Hp.
  { apply (registerAll_permutation (newCommander o h fl) cmds). constructor. }
  split; [by rewrite Hp | exact Hp].
Qed.

(** X2. After any registrations on a new Commander, [get] finds for a
    name the first command that was registered under it (and nothing
    when none was): a later registration of the name never takes its
    place. *)
Theorem X2_get_finds_first_registered (o : option Writer) (h : string)
    (fl : option (@flag.Declarator St)) cmds n :
  Commander_get (registerAll (newCommander o h fl) cmds) n = get_in cmds n.
Proof.
  rewrite (get_registerAll (newCommander o h fl) cmds n); [reflexivity|].
  constructor.
Qed.

(** X3. [get] is a lookup by name: what it returns is a command of the
    registry whose name is the one asked for, and it returns [nil]
    exactly when no command of the registry has that name. *)
Theorem X3_get_lookup c n :
  (forall cmd, Commander_get c n = Some cmd ->
               cmd ∈ commands c /\ Command_Name cmd = n)
  /\ (Commander_get c n = None <->
      forall cmd, cmd ∈ commands c -> Command_Name cmd <> n).
Proof.
  split.
  - intros cmd Hg. split; [by eapply get_in_elem | by eapply get_in_name].
  - apply get_in_None.
Qed.

(** X4. When the commands registered have different names, the order of
    the registrations does not matter: the same commands registered in
    another order give the same registry. *)
Theorem X4_registration_order_irrelevant (o : option Writer) (h : string)
    (fl : option (@flag.Declarator St)) cmds cmds' :
  NoDup (map Command_Name cmds) ->
  cmds ≡ₚ cmds' ->
  commands (registerAll (newCommander o h fl) cmds)
  = commands (registerAll (newCommander o h fl) cmds').
Proof.
  intros Hnd Hperm.
  set (l1 := commands (registerAll (newCommander o h fl) cmds)).
  set (l2 := commands (registerAll (newCommander o h fl) cmds')).
  assert (l1 ≡ₚ cmds) as H1
    by (apply (registerAll_permutation (newCommander o h fl) cmds); constructor).
  assert (l2 ≡ₚ cmds') as H2
    by (apply (registerAll_permutation (newCommander o h fl) cmds'); constructor).
  apply (StronglySorted_unique_strong
           (fun a b => String.le (Command_Name a) (Command_Name b))).
  - intros x1 x2 Hx1 Hx2 Hle1 Hle2.
    apply (NoDup_names_inj cmds); [assumption | by rewrite <- H1 | |].
    + by rewrite Hperm, <- H2.
    + by apply (anti_symm String.le).
  - apply sortedByName_commands, registerAll_sorted. constructor.
  - apply sortedByName_commands, registerAll_sorted. constructor.
  - by rewrite H1, H2.
Qed.

End RegistryMore.

(** X4 on the two commands of the tests, registered in both orders. *)
Lemma X4_registration_order_irrelevant_witness :
  NoDup (map Command_Name [@helpCmd Example.Vars; Example.testCmd])
  /\ commands (registerAll (newCommander (Some Example.cout) "" None)
                 [helpCmd; Example.testCmd])
     = commands (registerAll (newCommander (Some Example.cout) "" None)
                   [Example.testCmd; helpCmd]).
Proof.
  assert (NoDup (map Command_Name [@helpCmd Example.Vars; Example.testCmd])) as Hnd.
  { apply NoDup_cons. split; [|apply NoDup_singleton].
    intros Hin. apply list_elem_of_singleton in Hin. discriminate. }
  split; [exact Hnd|].
  apply (X4_registration_order_irrelevant (Some Example.cout) "" None
           [helpCmd; Example.testCmd] [Example.testCmd; helpCmd] Hnd).
  apply Permutation_swap.
Defined.

(** ** Run and the help, path by path *)
Section RunMore.
Context {St : Type} `{Platform}.
Implicit Types (c : @Commander St) (cmd : @Command St) (σ : World St)
  (f : @flag.FlagSet St).

(** [Parse] stops at a first argument that is no flag and leaves every
    argument. *)
Lemma Parse_nonFlag f (a : string) (more : list string) σ :
  nonFlag a = true ->
  flag.Parse (a :: more) f σ = (None, flag.setArgs (a :: more) f, σ).
Proof.
  intros Ha. unfold flag.Parse. rewrite parseLoop_unfold.
  unfold flag.parseOne. cbn [flag.args flag.setArgs].
  destruct a as [|s0 [|s1 s2]]; [reflexivity..|].
  simpl in Ha. rewrite Ha. reflexivity.
Qed.



(** X5. [Run] on a list that is not empty ends in one of three ways: it
    returns [flag.ErrHelp], or it returns an error that the flag parser
    made, or it ends as the [Run] of a command ends, in the world that
    command leaves; and such a command is the one that [get] finds under
    its own name. Of the Commander it changes the name and nothing
    else. *)
Theorem X5_Run_ends_in_one_of_three_ways c (a : string) (rest : list string) σ :
  (Commander_Run c (a :: rest) σ).1.2 = setName a c
  /\ ((Commander_Run c (a :: rest) σ).1.1 = Returned (Some ErrHelp)
      \/ (exists msg, (Commander_Run c (a :: rest) σ).1.1
                      = Returned (Some (parseError msg)))
      \/ (exists cmd (more : list string) σ0,
            Commander_get c (Command_Name cmd) = Some cmd
            /\ Command_Run (setName a c) cmd more σ0
               = ((Commander_Run c (a :: rest) σ).1.1,
                  (Commander_Run c (a :: rest) σ).2))).
Proof.
  rewrite Run_unfold. cbv zeta.
  destruct (flag.Parse rest (globalSet (setName a c) σ).1
              (globalSet (setName a c) σ).2) as [[[e|] f] σ1] eqn:Hp.
  { split; [reflexivity|]. apply Parse_inv in Hp as (_ & σ0 & _ & Hr).
    destruct Hr as [[-> _]|(msg & -> & _)]; [by left | right; left; by exists msg]. }
  destruct (flag.NArg f =? 0); [split; [reflexivity | by left]|].
  destruct (Commander_get (setName a c) (flag.Arg 0 f)) as [cmd|] eqn:Hg;
    [|split; [reflexivity | by left]].
  destruct (flag.Parse (drop 1 (flag.Args f)) (subSet (setName a c) cmd σ1).1
              (subSet (setName a c) cmd σ1).2) as [[[e|] f2] σ2] eqn:Hp2.
  { split; [reflexivity|]. apply Parse_inv in Hp2 as (_ & σ0 & _ & Hr).
    destruct Hr as [[-> _]|(msg & -> & _)]; [by left | right; left; by exists msg]. }
  destruct (Command_Run (setName a c) cmd (flag.Args f2) σ2) as [r σ3] eqn:Hr.
  split; [reflexivity|]. right; right.
  exists cmd, (flag.Args f2), σ2. split; [|exact Hr].
  rewrite get_setName in Hg. rewrite (get_in_name _ _ _ Hg). exact Hg.
Qed.

(** X6. When the global flags parse and leave no argument, [Run] returns
    [flag.ErrHelp] after the summary was written. The parse itself wrote
    nothing and no command has run. The summary runs the declarator of
    the global flags once more, on the state of the client that the
    parse left: the flags it then defines are the ones the summary
    shows, and the state it leaves is the one [Run] ends in, so that a
    variable that a flag of the command line had set holds what the
    declarator stores. *)
Theorem X6_Run_nothing_left c (prog : string) (rest : list string) σ f σ1 :
  flag.Parse rest (globalSet (setName prog c) σ).1
    (globalSet (setName prog c) σ).2 = (None, f, σ1) ->
  flag.args f = [] ->
  out σ1 = out σ
  /\ Commander_Run c (prog :: rest) σ
     = (Returned (Some ErrHelp), setName prog c,
        mkWorld (out σ ++ summaryText (setName prog c) (client σ1))
          match Flags c with
          | Some d => (d (client σ1)).2
          | None => client σ1
          end).
Proof.
  intros Hp Ha.
  assert (out σ1 = out σ) as Ho.
  { apply Parse_inv in Hp as (_ & Ho).
    by rewrite Ho, globalSet_world, afterGlobal_out. }
  split; [exact Ho|].
  rewrite (Run_no_command c prog rest σ f σ1 Hp Ha).
  f_equal. unfold emit, afterGlobal. cbn [Flags setName].
  destruct (Flags c) as [d|]; cbn [out client]; by rewrite Ho.
Qed.

(** X7. When the global flags do not parse, [Run] returns the error of
    the parse as it is and runs no command. For a request for help the
    error is [flag.ErrHelp] and the summary has been written; for any
    other failure it is an error of the parser, whose message has been
    written on a line of [os.Stderr], and then the summary. The summary
    is the one of the state of the client at the failure, and has run
    the declarator of the global flags on it. *)
Theorem X7_Run_global_flags_fail c (prog : string) (rest : list string)
    σ e f σ1 :
  flag.Parse rest (globalSet (setName prog c) σ).1
    (globalSet (setName prog c) σ).2 = (Some e, f, σ1) ->
  Commander_Run c (prog :: rest) σ = (Returned (Some e), setName prog c, σ1)
  /\ exists σ0, out σ0 = out σ
       /\ ((e = ErrHelp
            /\ σ1 = emit (summaryText (setName prog c) (client σ0))
                      (afterGlobal (setName prog c) σ0))
           \/ exists msg, e = parseError msg
                /\ σ1 = emit ((Stderr, msg +:+ nl)
                              :: summaryText (setName prog c) (client σ0))
                          (afterGlobal (setName prog c) σ0)).
Proof.
  intros Hp.
  destruct (Run_parse_failure c prog rest σ) as [Hglobal _].
  exact (Hglobal e f σ1 Hp).
Qed.

(** X8. When the global flags parse, the first argument left names a
    registered command and the flags of that command do not parse, [Run]
    returns the error of that parse as it is and does not run the
    command. For a request for help the error is [flag.ErrHelp] and the
    help of the command has been written; for any other failure it is an
    error of the parser, whose message has been written on a line of
    [os.Stderr], and then the help of the command. The help is the one
    of the state of the client at the failure, and has run the [Flags]
    of the command on it. *)
Theorem X8_Run_command_flags_fail c (prog : string) (rest more : list string)
    (a : string) cmd σ e f σ1 f2 σ2 :
  flag.Parse rest (globalSet (setName prog c) σ).1
    (globalSet (setName prog c) σ).2 = (None, f, σ1) ->
  flag.args f = a :: more ->
  Commander_get c a = Some cmd ->
  flag.Parse more (subSet (setName prog c) cmd σ1).1
    (subSet (setName prog c) cmd σ1).2 = (Some e, f2, σ2) ->
  Commander_Run c (prog :: rest) σ = (Returned (Some e), setName prog c, σ2)
  /\ exists σ0, out σ0 = out σ
       /\ ((e = ErrHelp
            /\ σ2 = emit (detailText c cmd (client σ0)) (afterFlags cmd σ0))
           \/ exists msg, e = parseError msg
                /\ σ2 = emit ((Stderr, msg +:+ nl)
                              :: detailText c cmd (client σ0))
                          (afterFlags cmd σ0)).
Proof.
  intros Hp Ha Hg Hp2.
  destruct (Run_parse_failure c prog rest σ) as [_ Hsub].
  exact (Hsub f σ1 a more cmd e f2 σ2 Hp Ha Hg Hp2).
Qed.

(** X9. With the help command registered under [help], [Run] on the
    name of the program and [help] writes the summary and returns [nil]
    (not [flag.ErrHelp], which it returns with no argument at all); with
    one more argument that is no flag it ends as [helpCmd.Run] ends on
    that argument. In both cases the help runs in the world that the
    declarator of the global flags left, and the summary runs that
    declarator once more. *)
Theorem X9_Run_help_command c (prog : string) σ :
  Commander_get c "help" = Some helpCmd ->
  Commander_Run c [prog; "help"] σ
  = (Returned None, setName prog c,
     emit (summaryText (setName prog c) (client (afterGlobal c σ)))
       (afterGlobal c (afterGlobal c σ)))
  /\ forall n : string, nonFlag n = true ->
       Commander_Run c [prog; "help"; n] σ
       = (Returned (helpCmd_Run (setName prog c) [n] (afterGlobal c σ)).1,
          setName prog c,
          (helpCmd_Run (setName prog c) [n] (afterGlobal c σ)).2).
Proof.
  intros Hg.
  assert (afterGlobal (setName prog c) = afterGlobal c) as Hag by reflexivity.
  split.
  - rewrite (Run_execute c prog ["help"] σ _ _ "help" [] helpCmd _ _
               (Parse_nonFlag _ "help" [] _ eq_refl) eq_refl Hg
               (Parse_nil _ _)).
    rewrite subSet_world, globalSet_world, Hag.
    cbn [Command_Run flag.args flag.setArgs afterFlags].
    change (helpCmd_Run (setName prog c) [] ?w)
      with (helpCmd_summary (setName prog c) w).
    rewrite helpCmd_summary_eq, Hag. reflexivity.
  - intros n Hn.
    rewrite (Run_execute c prog ["help"; n] σ _ _ "help" [n] helpCmd _ _
               (Parse_nonFlag _ "help" [n] _ eq_refl) eq_refl Hg
               (Parse_nonFlag _ n [] _ Hn)).
    rewrite subSet_world, globalSet_world, Hag.
    cbn [Command_Run flag.args flag.setArgs afterFlags].
    destruct (helpCmd_Run (setName prog c) [n] (afterGlobal c σ)). reflexivity.
Qed.


End RunMore.
(** ** Global flags, the command, its flags *)
Section Splitting.
Context {St : Type} `{Platform}.
Implicit Types (c : @Commander St) (cmd : @Command St) (σ : World St)
  (f : @flag.FlagSet St).

(** A step that has seen a flag took it and its value from the front of
    the arguments: it goes the same way with more arguments behind. *)
Lemma parseFlag_app f (nm : string) (hv : bool) (v : string) σ e f' σ'
    (t : list string) :
  flag.parseFlag f nm hv v σ = (true, e, f', σ') ->
  flag.parseFlag (flag.setArgs (flag.args f ++ t) f) nm hv v σ
  = (true, e, flag.setArgs (flag.args f' ++ t) f', σ').
Proof.
  unfold flag.parseFlag, flag.failed, flag.failf.
  cbn [flag.formal flag.setArgs flag.args].
  destruct (flag.formal f !! nm) as [fl|].
  - destruct (flag.IsBoolFlag fl).
    + destruct hv.
      * destruct (flag.callSet fl v σ) as [[err|] σ1]; [discriminate|].
        intros [= <- <- <-]. reflexivity.
      * destruct (flag.callSet fl "true" σ) as [[err|] σ1]; [discriminate|].
        intros [= <- <- <-]. reflexivity.
    + destruct hv.
      * destruct (flag.callSet fl v σ) as [[err|] σ1]; [discriminate|].
        intros [= <- <- <-]. reflexivity.
      * destruct (flag.args f) as [|v1 rest]; [discriminate|].
        cbn [app].
        destruct (flag.callSet fl v1 σ) as [[err|] σ1]; [discriminate|].
        intros [= <- <- <-]. reflexivity.
  - destruct (String.eqb nm "help" || String.eqb nm "h"); discriminate.
Qed.

Lemma parseFlag_not_seen f (nm : string) (hv : bool) (v : string) σ err f' σ' :
  flag.parseFlag f nm hv v σ = (false, err, f', σ') -> err <> None.
Proof.
  unfold flag.parseFlag, flag.failed, flag.failf. intros Hp.
  repeat case_match; inversion Hp; subst; discriminate.
Qed.

Lemma parseOne_app f σ e f' σ' (t : list string) :
  flag.parseOne f σ = (true, e, f', σ') ->
  flag.parseOne (flag.setArgs (flag.args f ++ t) f) σ
  = (true, e, flag.setArgs (flag.args f' ++ t) f', σ').
Proof.
  unfold flag.parseOne, flag.failed, flag.failf.
  cbn [flag.setArgs flag.args].
  destruct (flag.args f) as [|s rest] eqn:Hargs; [discriminate|].
  cbn [app].
  destruct s as [|s0 [|s1 s2]]; [discriminate..|].
  destruct (negb (Ascii.eqb s0 "-")); [discriminate|].
  destruct (Ascii.eqb s1 "-" && String.eqb s2 ""); [discriminate|].
  destruct (if Ascii.eqb s1 "-" then s2 else String s1 s2) as [|n0 nt];
    [discriminate|].
  destruct (Ascii.eqb n0 "-" || Ascii.eqb n0 "="); [discriminate|].
  destruct (flag.splitValue (String n0 nt)) as [[nm hv] v].
  intros Hp. apply (parseFlag_app _ _ _ _ _ _ _ _ t) in Hp. exact Hp.
Qed.

(** The last step of a parse that leaves nothing, with [a :: s] behind:
    it stops before [a], which is no flag. *)
Lemma parseOne_stop f σ f' σ' (a : string) (s : list string) :
  flag.parseOne f σ = (false, None, f', σ') ->
  flag.args f' = [] ->
  nonFlag a = true ->
  flag.parseOne (flag.setArgs (flag.args f ++ a :: s) f) σ
  = (false, None, flag.setArgs (a :: s) f', σ').
Proof.
  unfold flag.parseOne, flag.failed, flag.failf.
  cbn [flag.setArgs flag.args].
  intros Hp Hnil Ha.
  destruct (flag.args f) as [|s0 rest] eqn:Hargs.
  { inversion Hp; subst. cbn [app].
    destruct a as [|a0 [|a1 a2]]; [reflexivity..|].
    simpl in Ha. rewrite Ha. reflexivity. }
  cbn [app].
  destruct s0 as [|c0 [|c1 c2]].
  { inversion Hp; subst. congruence. }
  { inversion Hp; subst. congruence. }
  destruct (negb (Ascii.eqb c0 "-")).
  { inversion Hp; subst. congruence. }
  destruct (Ascii.eqb c1 "-" && String.eqb c2 "").
  { inversion Hp; subst. simpl in Hnil. subst rest. reflexivity. }
  destruct (if Ascii.eqb c1 "-" then c2 else String c1 c2) as [|n0 nt];
    [discriminate|].
  destruct (Ascii.eqb n0 "-" || Ascii.eqb n0 "="); [discriminate|].
  destruct (flag.splitValue (String n0 nt)) as [[nm hv] v].
  apply parseFlag_not_seen in Hp. congruence.
Qed.

Lemma parseLoop_app f σ f' σ' (a : string) (s : list string) :
  flag.parseLoop f σ = (None, f', σ') ->
  flag.args f' = [] ->
  nonFlag a = true ->
  flag.parseLoop (flag.setArgs (flag.args f ++ a :: s) f) σ
  = (None, flag.setArgs (a :: s) f', σ').
Proof.
  funelim (flag.parseLoop f σ); intros Hp Hnil Ha.
  - rewrite parseLoop_unfold.
    rewrite (parseOne_app _ _ _ _ _ (a :: s) Hstep).
    exact (H0 _ _ _ _ Hp Hnil Ha).
  - inversion Hp; subst.
    rewrite parseLoop_unfold.
    rewrite (parseOne_stop _ _ _ _ a s e Hnil Ha). reflexivity.
Qed.

(** [Parse] of arguments that it takes whole, with a token that is no
    flag and more behind: it leaves that token and what follows. *)
Lemma Parse_app (g : list string) f σ f' σ' (a : string) (s : list string) :
  flag.Parse g f σ = (None, f', σ') ->
  flag.args f' = [] ->
  nonFlag a = true ->
  flag.Parse (g ++ a :: s) f σ = (None, flag.setArgs (a :: s) f', σ').
Proof.
  unfold flag.Parse. intros Hp Hnil Ha.
  exact (parseLoop_app (flag.setArgs g f) σ f' σ' a s Hp Hnil Ha).
Qed.

(** X11. [Run] splits its arguments in three: when the arguments [g]
    alone parse as global flags and leave nothing, [a] is no flag and
    names a registered command, and the arguments [s] parse as flags of
    that command, then [Run] on the name of the program, [g], [a] and [s]
    sets the global flags from [g] and the flags of the command from [s],
    in that order, each after its declarator has run, and ends as the
    [Run] of the command ends on the arguments that [s] leaves. *)
Theorem X11_Run_splits_its_arguments c (prog : string) (g s : list string)
    (a : string) cmd σ f σ1 f2 σ2 r σ3 :
  flag.Parse g (globalSet (setName prog c) σ).1
    (globalSet (setName prog c) σ).2 = (None, f, σ1) ->
  flag.args f = [] ->
  nonFlag a = true ->
  Commander_get c a = Some cmd ->
  flag.Parse s (subSet (setName prog c) cmd σ1).1
    (subSet (setName prog c) cmd σ1).2 = (None, f2, σ2) ->
  Command_Run (setName prog c) cmd (flag.args f2) σ2 = (r, σ3) ->
  Commander_Run c (prog :: g ++ a :: s) σ = (r, setName prog c, σ3).
Proof.
  intros Hp Hnil Ha Hg Hp2 Hr.
  pose proof (Parse_app g _ _ f σ1 a s Hp Hnil Ha) as Hsplit.
  rewrite (Run_execute c prog (g ++ a :: s) σ _ σ1 a s cmd f2 σ2
             Hsplit eq_refl Hg Hp2).
  rewrite Hr. reflexivity.
Qed.

End Splitting.

(** ** The earlier Commander against the later one *)
Section Versions.
Context {St : Type} `{Platform}.
Implicit Types (c : @v1.Commander St) (cmd : @Command St) (σ : World St).

Lemma upgrade_Register c cmd :
  upgrade (v1.Register c cmd) = Commander_Register (upgrade c) cmd.
Proof.
  unfold v1.Register, Commander_Register, upgrade. cbn [commands].
  destruct (_ && _); reflexivity.
Qed.

Lemma upgrade_foldl c (cmds : list (@Command St)) :
  upgrade (foldl v1.Register c cmds) = registerAll (upgrade c) cmds.
Proof.
  revert c. induction cmds as [|cmd cmds IH]; intros c; simpl; [reflexivity|].
  by rewrite IH, upgrade_Register.
Qed.

Lemma upgrade_helpCmd_Run c (args : list string) σ :
  v1.helpCmd_Run c args σ = helpCmd_Run (upgrade c) args σ.
Proof. destruct args; reflexivity. Qed.

Lemma upgrade_Run c (args : list string) σ :
  (let '(r, c', σ') := v1.Run c args σ in (r, upgrade c', σ'))
  = Commander_Run (upgrade c) args σ.
Proof.
  destruct args as [|a0 rest]; [reflexivity|].
  unfold v1.Run, Commander_Run.
  change (setName a0 (upgrade c))
    with (upgrade (v1.mkCommander a0 (v1.help c) (v1.flags c) (v1.commands c))).
  set (c1 := v1.mkCommander a0 (v1.help c) (v1.flags c) (v1.commands c)).
  change (match v1.flags c1 with
          | Some d =>
              flag.define d
                (flag.SetUsage (fun σ0 => (v1.helpCmd_Run c1 [] σ0).2)
                   (flag.NewFlagSet a0)) σ
          | None =>
              (flag.SetUsage (fun σ0 => (v1.helpCmd_Run c1 [] σ0).2)
                 (flag.NewFlagSet a0), σ)
          end) with (globalSet (upgrade c1) σ).
  destruct (globalSet (upgrade c1) σ) as [fs σ0].
  destruct (flag.Parse rest fs σ0) as [[[e|] f] σ1]; [reflexivity|].
  destruct (flag.NArg f =? 0); [reflexivity|].
  change (v1.get c1 (flag.Arg 0 f))
    with (Commander_get (upgrade c1) (flag.Arg 0 f)).
  destruct (Commander_get (upgrade c1) (flag.Arg 0 f)) as [cmd|]; [|reflexivity].
  change (Command_Flags cmd
            (flag.SetUsage (fun σ0 => (v1.helpCmd_Run c1 [Command_Name cmd] σ0).2)
               (flag.NewFlagSet (Command_Name cmd))) σ1)
    with (subSet (upgrade c1) cmd σ1).
  destruct (subSet (upgrade c1) cmd σ1) as [sb σ1'].
  destruct (flag.Parse (drop 1 (flag.Args f)) sb σ1')
    as [[[e|] f2] σ2]; [reflexivity|].
  destruct cmd as [|u]; simpl.
  - rewrite upgrade_helpCmd_Run.
    destruct (helpCmd_Run (upgrade c1) (flag.Args f2) σ2). reflexivity.
  - destruct (clientRun u (flag.Args f2) σ2). reflexivity.
Qed.

(** X12. A Commander of the earlier version, made from the zero value
    with [Help], [Flags] and any calls of [Register], behaves as the
    Commander of the later version made with the same help text and
    declarator, [Output] left [nil], and the same calls of [Register]:
    both hold the same registry, [get] finds the same command, and [Run]
    ends the same way in the same world, every write going where it went
    before. *)
Theorem X12_earlier_Commander_is_later_with_nil_Output (h : string)
    (fl : option (@flag.Declarator St)) (cmds : list (@Command St))
    (args : list string) (n : string) σ :
  let old := foldl v1.Register (v1.Flags fl (v1.Help h v1.zero)) cmds in
  let new := registerAll (newCommander None h fl) cmds in
  v1.commands old = commands new
  /\ v1.get old n = Commander_get new n
  /\ (v1.Run old args σ).1.1 = (Commander_Run new args σ).1.1
  /\ (v1.Run old args σ).2 = (Commander_Run new args σ).2
  /\ upgrade (v1.Run old args σ).1.2 = (Commander_Run new args σ).1.2.
Proof.
  intros old new.
  assert (upgrade old = new) as Hup by apply upgrade_foldl.
  pose proof (upgrade_Run old args σ) as Hrun. rewrite Hup in Hrun.
  destruct (v1.Run old args σ) as [[r c'] σ'].
  rewrite <- Hrun, <- Hup. repeat split.
Qed.

End Versions.

(** ** The further properties on the commands of the tests *)

(** X6 on a Commander with the global flag [-v]: the flag sets
    [verbose], nothing is left, and the summary, which declares the flag
    anew, leaves [verbose] at its default. *)
Lemma X6_Run_nothing_left_witness :
  Commander_Run (H := Example.asciiPlatform) Example.globalCommander
    ["prog"; "-v"] Example.world0
  = (Returned (Some ErrHelp), setName "prog" Example.globalCommander,
     mkWorld
       [(Example.cout,
         "Usage: prog [global options] <subcommand> [subcommand arguments]"
         +:+ nl);
        (Example.cout, nl +:+ "Global Options:" +:+ nl);
        (Stderr, "  -v" +:+ tab +:+ "be verbose" +:+ nl);
        (Example.cout, nl +:+ "Commands:" +:+ nl);
        (Example.cout,
         tab +:+ "test" +:+ tab +:+ tab +:+ "a simple test" +:+ nl)]
       (Example.mkVars false "")).
Proof.
  edestruct (X6_Run_nothing_left (H := Example.asciiPlatform)
               Example.globalCommander "prog" ["-v"] Example.world0)
    as [_ Hr]; [vm_compute; reflexivity | reflexivity |].
  rewrite Hr. vm_compute. reflexivity.
Defined.

(** X7 on a Commander with the global flag [-v], given [-x]. *)
Lemma X7_Run_global_flags_fail_witness :
  exists σ1,
    Commander_Run (H := Example.asciiPlatform) Example.globalCommander
      ["prog"; "-x"] Example.world0
    = (Returned (Some (parseError "flag provided but not defined: -x")),
       setName "prog" Example.globalCommander, σ1)
    /\ written Stderr (out σ1)
       = "flag provided but not defined: -x" +:+ nl
         +:+ "  -v" +:+ tab +:+ "be verbose" +:+ nl.
Proof.
  edestruct (X7_Run_global_flags_fail (H := Example.asciiPlatform)
               Example.globalCommander "prog" ["-x"] Example.world0
               (parseError "flag provided but not defined: -x"))
    as [Hr _]; [vm_compute; reflexivity |].
  eexists. split; [exact Hr | vm_compute; reflexivity].
Defined.

(** X8 on the Commander of the tests: the command [test] given [-bogus]. *)
Lemma X8_Run_command_flags_fail_witness :
  exists σ2,
    Commander_Run (H := Example.asciiPlatform) Example.testCommander
      ["subtest"; "test"; "-bogus"] Example.world0
    = (Returned (Some (parseError "flag provided but not defined: -bogus")),
       setName "subtest" Example.testCommander, σ2)
    /\ written Stderr (out σ2)
       = "flag provided but not defined: -bogus" +:+ nl
    /\ written Example.testout (out σ2) = "".
Proof.
  edestruct (X8_Run_command_flags_fail (H := Example.asciiPlatform)
               Example.testCommander "subtest" ["test"; "-bogus"] ["-bogus"]
               "test" Example.testCmd Example.world0
               (parseError "flag provided but not defined: -bogus"))
    as [Hr _];
    [vm_compute; reflexivity | reflexivity | reflexivity
     | vm_compute; reflexivity |].
  eexists. split; [exact Hr|]. split; vm_compute; reflexivity.
Defined.

(** X9 on the Commander of the tests, which registers the help command. *)
Lemma X9_Run_help_command_witness :
  Commander_get Example.testCommander "help" = Some helpCmd
  /\ Commander_Run (H := Example.asciiPlatform) Example.testCommander
       ["subtest"; "help"] Example.world0
     = (Returned None, setName "subtest" Example.testCommander,
        mkWorld
          [(Example.cout,
            "Usage: subtest <subcommand> [subcommand arguments]" +:+ nl);
           (Example.cout, nl +:+ "Even more help text." +:+ nl);
           (Example.cout, nl +:+ "Commands:" +:+ nl);
           (Example.cout,
            tab +:+ "help" +:+ tab +:+ tab +:+ "show help for commands"
            +:+ nl);
           (Example.cout,
            tab +:+ "test" +:+ tab +:+ tab +:+ "a simple test" +:+ nl)]
          (Example.mkVars false "")).
Proof.
  split; [reflexivity|].
  destruct (X9_Run_help_command (H := Example.asciiPlatform)
              Example.testCommander "subtest" Example.world0 eq_refl)
    as [Hr _].
  rewrite Hr. vm_compute. reflexivity.
Defined.

(** X11 on a Commander with the global flag [-v] and the command [test]
    with its flag [-flag]. *)
Lemma X11_Run_splits_its_arguments_witness :
  Commander_Run (H := Example.asciiPlatform) Example.globalCommander
    ["prog"; "-v"; "test"; "-flag"; "x"; "arg0"] Example.world0
  = (Returned None, setName "prog" Example.globalCommander,
     mkWorld [(Example.testout, Example.asciiQuote "arg0")]
       (Example.mkVars true "x")).
Proof.
  eapply (X11_Run_splits_its_arguments (H := Example.asciiPlatform)
            Example.globalCommander "prog" ["-v"] ["-flag"; "x"; "arg0"]
            "test" Example.testCmd Example.world0).
  - vm_compute; reflexivity.
  - reflexivity.
  - reflexivity.
  - reflexivity.
  - vm_compute; reflexivity.
  - vm_compute; reflexivity.
Defined.
